(** * FlareSolverr: per-domain proxy assignment and session routing

    A shallow embedding of [src/flaresolverr.py] (the module-level state
    [PROXY_POOL] / [DOMAIN_PROXIES], [discover_proxies] and the routing part
    of [controller_v1]) together with the properties of the specification
    that can be settled on it. *)

From Stdlib Require Import String Ascii List ZArith Lia.
From stdpp Require Import base option list gmap strings pretty.

Local Open Scope string_scope.
Local Open Scope list_scope.
Local Open Scope nat_scope.

(** ** Python strings *)

Module PyStr.

(** [str.replace(old, new)] with an empty [old]: [new] is inserted before
    every character and once at the end. *)
Fixpoint intersperse (new s : string) : string :=
  match s with
  | EmptyString => new
  | String c s' => new +:+ String c (intersperse new s')
  end.

(** Left-to-right scan of [str.replace]: [skip] counts the characters of
    the occurrence of [old] found last that are still to be dropped. *)
Fixpoint replace_from (old new : string) (skip : nat) (s : string) : string :=
  match s with
  | EmptyString => EmptyString
  | String c s' =>
      match skip with
      | S k => replace_from old new k s'
      | O =>
          if String.prefix old s
          then new +:+ replace_from old new (String.length old - 1) s'
          else String c (replace_from old new 0 s')
      end
  end.

(** [s.replace(old, new)]: every non-overlapping occurrence, leftmost
    first. *)
Definition replace (old new s : string) : string :=
  match old with
  | EmptyString => intersperse new s
  | _ => replace_from old new 0 s
  end.

(** Truthiness of a [str]. *)
Definition truthy (s : string) : bool :=
  match s with EmptyString => false | _ => true end.

(** [c in s] for a character [c]. *)
Fixpoint contains (c : ascii) (s : string) : bool :=
  match s with
  | EmptyString => false
  | String c' s' => Ascii.eqb c c' || contains c s'
  end.

End PyStr.

Example replace_dots : PyStr.replace "." "_" "www.example.com:80" = "www_example_com:80".
Proof. reflexivity. Qed.

Example replace_scheme :
  PyStr.replace "http://" "" "http://10_0_3_1:8888" = "10_0_3_1:8888".
Proof. reflexivity. Qed.

Example replace_overlap : PyStr.replace "aa" "b" "aaaaa" = "bba".
Proof. reflexivity. Qed.

Example replace_empty_old : PyStr.replace "" "-" "abc" = "-a-b-c-".
Proof. reflexivity. Qed.

Example pretty_119 : pretty 119%nat = "119".
Proof. vm_compute. reflexivity. Qed.

(** ** Values, exceptions and the interpreter state *)

(** The parsed JSON body of a request ([request.json]); [JNull] is Python's
    [None], which is also what an absent body gives.  Numbers are kept as
    integers: the code only tests them for truthiness. *)
#[warnings="-register-all"]
Inductive json : Type :=
  | JNull
  | JBool (b : bool)
  | JNum (z : Z)
  | JStr (s : string)
  | JList (l : list json)
  | JDict (m : gmap string json).

(** The exceptions the modelled code can raise. *)
Inductive exn : Type :=
  | NameError (name : string)
  | TypeError
  | AttributeError
  | ValueError
  | IndexError
  | KeyError
  | OtherError (msg : string).

(** How a call ends: with a value, with an exception, or not at all. *)
Inductive result (A : Type) : Type :=
  | Ok (a : A)
  | Raise (e : exn)
  | Diverges.
Arguments Ok {A} a.
Arguments Raise {A} e.
Arguments Diverges {A}.

(** Lines written by [logging.info] and [logging.warning], as events. *)
Inductive log_event : Type :=
  | LogDiscovered (count : nat) (pool : list string)
  | LogParseFailure
  | LogSelected (proxy session_id domain : string).

(** The state of Python's global random generator: the numbers it is going
    to produce, in order.  A generator whose numbers are used up produces 0
    from then on. *)
Definition rng : Type := list nat.

(** Module-level state: the two globals of the program, the random
    generator and the log. *)
Record State : Type := mkState {
  PROXY_POOL : list string;
  DOMAIN_PROXIES : gmap (option string) (list string);
  RNG : rng;
  LOG : list log_event
}.

Definition set_pool (p : list string) (st : State) : State :=
  mkState p (DOMAIN_PROXIES st) (RNG st) (LOG st).
Definition set_domain_proxies (d : gmap (option string) (list string)) (st : State) : State :=
  mkState (PROXY_POOL st) d (RNG st) (LOG st).
Definition set_rng (g : rng) (st : State) : State :=
  mkState (PROXY_POOL st) (DOMAIN_PROXIES st) g (LOG st).
Definition add_log (e : log_event) (st : State) : State :=
  mkState (PROXY_POOL st) (DOMAIN_PROXIES st) (RNG st) (LOG st ++ [e]).

(** The state at import time: both globals empty. *)
Definition initial_state (g : rng) : State := mkState [] ∅ g [].

(** Computations that read and write the state and may raise or not
    return; what was written before stays written. *)
Definition M (A : Type) : Type := State → result A * State.

Definition ret {A} (a : A) : M A := λ st, (Ok a, st).
Definition raise {A} (e : exn) : M A := λ st, (Raise e, st).
Definition bind {A B} (m : M A) (k : A → M B) : M B :=
  λ st, match m st with
        | (Ok a, st') => k a st'
        | (Raise e, st') => (Raise e, st')
        | (Diverges, st') => (Diverges, st')
        end.
Definition lift {A} (r : result A) : M A := λ st, (r, st).
Definition get : M State := λ st, (Ok st, st).
Definition modify (f : State → State) : M unit := λ st, (Ok tt, f st).

Notation "'let*' x := m 'in' k" := (bind m (λ x, k))
  (at level 10, x name, m at level 100, k at level 200,
   format "'let*'  x  :=  m  'in'  '/' k").

(** ** The [random] module *)

Module Random.

(** [_randbelow(n)]: the next number of the generator, below [n]. *)
Definition randbelow (n : nat) (g : rng) : nat * rng :=
  match g with
  | [] => (0, [])
  | r :: g' => (r mod n, g')
  end.

(** The bound of [random.sample] under which it copies the population:
<<
    setsize = 21
    if k > 5:
        setsize += 4 ** _ceil(_log(k * 3, 4))
>>
    ([k * 3] is never a power of 4, so the ceiling of its logarithm is
    [(log2_up (k * 3) + 1) / 2].) *)
Definition setsize (k : nat) : nat :=
  if decide (5 < k)%nat then 21 + 4 ^ ((Nat.log2_up (k * 3) + 1) / 2) else 21.

(** The selection loop of [random.sample] for a population of at most
    [setsize] elements: [live] is [n - i], the slots [pool[0 .. live)] hold
    the elements not selected so far.
<<
    pool = list(population)
    for i in range(k):
        j = randbelow(n - i)
        result[i] = pool[j]
        pool[j] = pool[n - i - 1]
>> *)
Fixpoint sample_loop {A} (k live : nat) (pool : list A) (g : rng)
  : result (list A) * rng :=
  match k with
  | O => (Ok [], g)
  | S k' =>
      let '(j, g1) := randbelow live g in
      match pool !! j, pool !! (live - 1) with
      | Some x, Some y =>
          match sample_loop k' (live - 1) (<[j := y]> pool) g1 with
          | (Ok rest, g2) => (Ok (x :: rest), g2)
          | (Raise e, g2) => (Raise e, g2)
          | (Diverges, g2) => (Diverges, g2)
          end
      | _, _ => (Raise IndexError, g1)
      end
  end.

(** The selection loop of [random.sample] for a larger population: indices
    are drawn until one comes that was not selected before.
<<
    selected = set()
    for i in range(k):
        j = randbelow(n)
        while j in selected:
            j = randbelow(n)
        selected.add(j)
        result[i] = population[j]
>>
    Every draw takes one number of the generator.  Once the generator has
    run out it yields the same index for ever: when that index is selected
    already, the [while] loop does not end. *)
Fixpoint reject_loop {A} (population : list A) (n k : nat) (selected : list nat)
    (g : rng) {struct g} : result (list A) * rng :=
  match k with
  | O => (Ok [], g)
  | S k' =>
      let j := fst (randbelow n g) in
      match g with
      | [] =>
          if bool_decide (j ∈ selected) then (Diverges, [])
          else
            match population !! j with
            | Some x =>
                match k' with
                | O => (Ok [x], [])
                | S _ => (Diverges, [])
                end
            | None => (Raise IndexError, [])
            end
      | _ :: g' =>
          if bool_decide (j ∈ selected) then reject_loop population n k selected g'
          else
            match population !! j with
            | Some x =>
                match reject_loop population n k' (j :: selected) g' with
                | (Ok rest, g2) => (Ok (x :: rest), g2)
                | (Raise e, g2) => (Raise e, g2)
                | (Diverges, g2) => (Diverges, g2)
                end
            | None => (Raise IndexError, g')
            end
      end
  end.

(** [random.sample(population, k)]: [k] elements chosen without
    replacement, in selection order; [ValueError] when the sample is
    larger than the population. *)
Definition sample {A} (population : list A) (k : nat) (g : rng)
  : result (list A) * rng :=
  if decide (k ≤ length population)%nat
  then
    if decide (length population ≤ setsize k)%nat
    then sample_loop k (length population) population g
    else reject_loop population (length population) k [] g
  else (Raise ValueError, g).

(** The indices [randbelow(n)] yields from the generator [g] on: those of
    its numbers, then 0 for ever. *)
Definition indices (n : nat) (g : rng) : list nat :=
  ((λ r, r mod n) <$> g) ++ [0].

(** The generator yields at least [k] different indices below [n]. *)
Definition supplies (n k : nat) (g : rng) : Prop :=
  (k ≤ size (list_to_set (C := gset nat) (indices n g)))%nat.

#[global] Instance supplies_dec (n k : nat) (g : rng) : Decision (supplies n k g).
Proof. unfold supplies. apply _. Defined.

(** [random.choice(seq)]. *)
Definition choice {A} (seq : list A) (g : rng) : result A * rng :=
  match seq with
  | [] => (Raise IndexError, g)
  | _ =>
      let '(j, g1) := randbelow (length seq) g in
      match seq !! j with
      | Some x => (Ok x, g1)
      | None => (Raise IndexError, g1)
      end
  end.

End Random.


(** Values and helpers of the interpreter. *)

Definition json_truthy (v : json) : bool :=
  match v with
  | JNull => false
  | JBool b => b
  | JNum z => negb (z =? 0)%Z
  | JStr s => PyStr.truthy s
  | JList l => match l with [] => false | _ => true end
  | JDict m => negb (bool_decide (size m = 0%nat))
  end.

(** [a or b]. *)
Definition json_or (a b : json) : json := if json_truthy a then a else b.

(** A [str] or [None] as a JSON value. *)
Definition json_of_optstr (o : option string) : json :=
  match o with Some s => JStr s | None => JNull end.

(** [str(x)] of a [str] or [None], as an f-string prints it. *)
Definition py_str (o : option string) : string := default "None" o.

(** Truthiness of a [str] or [None]. *)
Definition optstr_truthy (o : option string) : bool :=
  match o with Some s => PyStr.truthy s | None => false end.

(** [obj[key] = v] with a [str] key: only a dict takes it. *)
Definition setitem (obj : json) (key : string) (v : json) : result json :=
  match obj with
  | JDict m => Ok (JDict (<[key := v]> m))
  | _ => Raise TypeError
  end.

(** ** [discover_proxies] *)

Definition proxy_url (x : nat) : string :=
  let host := "10.0." +:+ pretty x +:+ ".1" in
  let port := 8888%N in
  "http://" +:+ host +:+ ":" +:+ pretty port.

(** One round of the loop; [connect x] tells whether [s.connect] to host
    number [x] succeeds within the timeout. *)
Definition probe (connect : nat → bool) (proxies : list string) (x : nat)
  : list string :=
  if connect x then proxies ++ [proxy_url x] else proxies.

Definition discover_proxies (connect : nat → bool) : M unit :=
  λ st,
    let proxies := fold_left (probe connect) (seq 0 120) [] in
    (Ok tt, add_log (LogDiscovered (length proxies) proxies)
              (set_pool proxies st)).

(** ** The session identifier of line 87 *)

Definition session_key (domain proxy : string) : string :=
  "flaresolverr-" +:+ PyStr.replace "." "_" domain +:+ "-"
  +:+ PyStr.replace "http://" "" (PyStr.replace "." "_" proxy).

(** The f-string of line 87 with [domain] and [proxy] possibly [None]:
    [None] has no [replace]. *)
Definition derive_session_id (domain proxy : option string) : result string :=
  match domain with
  | None => Raise AttributeError
  | Some d =>
      match proxy with
      | None => Raise AttributeError
      | Some p => Ok (session_key d p)
      end
  end.

(** [request.url.replace("http", "https")] of line 96. *)
Definition rewrite_url (u : string) : string := PyStr.replace "http" "https" u.

(** ** [controller_v1] *)

Record Request : Type := mkRequest {
  url : string;       (* request.url *)
  json_body : json    (* request.json *)
}.

(** The attributes of a [dtos.V1RequestBase] object, by name. *)
Abbreviation V1RequestBase := (gmap string json).

(** Modelled from the spec: the class [dtos.V1RequestBase] is not among the
    sources.  The request object handed to the dispatcher is "populated with
    at least url, session, proxy, plus any caller-supplied payload fields
    passed through unchanged": [V1RequestBase(payload)] has the entries of
    the payload as its attributes. *)
Definition new_V1RequestBase (payload : json) : result V1RequestBase :=
  match payload with
  | JDict m => Ok m
  | _ => Raise TypeError
  end.

(** The names bound where line 73 is evaluated: the parameter and the
    locals of [controller_v1], then the globals of the module (its imports,
    its class, its functions and its variables).  No builtin is called
    [url]. *)
Definition names_in_scope : list string :=
  [ "path"; "payload"; "session_id"; "domain"; "e";
    "json"; "logging"; "os"; "sys"; "urlparse"; "socket"; "random"; "re";
    "format_datetime"; "datetime"; "certifi"; "run"; "response"; "Bottle";
    "request"; "ServerAdapter"; "error_plugin"; "logger_plugin";
    "prometheus_plugin"; "V1RequestBase"; "flaresolverr_service"; "utils";
    "JSONErrorBottle"; "app"; "PROXY_POOL"; "DOMAIN_PROXIES";
    "discover_proxies"; "controller_v1" ].

(** Reading a variable. *)
Definition load_name (x : string) : M unit :=
  if bool_decide (x ∈ names_in_scope) then ret tt else raise (NameError x).

Definition random_sample (population : list string) (k : nat) : M (list string) :=
  λ st, let '(r, g) := Random.sample population k (RNG st) in (r, set_rng g st).

Definition random_choice (seq : list string) : M string :=
  λ st, let '(r, g) := Random.choice seq (RNG st) in (r, set_rng g st).

(** [DOMAIN_PROXIES[domain]]. *)
Definition domain_proxies_getitem (domain : option string) : M (list string) :=
  let* st := get in
  match DOMAIN_PROXIES st !! domain with
  | Some l => ret l
  | None => raise KeyError
  end.

(** [DOMAIN_PROXIES[domain] = v]. *)
Definition domain_proxies_setitem (domain : option string) (v : list string) : M unit :=
  modify (λ st, set_domain_proxies (<[domain := v]> (DOMAIN_PROXIES st)) st).

(** Lines 80-83: the body of the [if] of line 79. *)
Definition create_assignment (domain : option string) : M unit :=
  let* st := get in
  if decide (10 ≤ length (PROXY_POOL st))%nat
  then
    let* chosen := random_sample (PROXY_POOL st) 10 in
    domain_proxies_setitem domain chosen
  else
    domain_proxies_setitem domain (PROXY_POOL st).

(** Lines 79-83: the assignment of a domain is created when it has none. *)
Definition assign_proxies (domain : option string) : M unit :=
  let* st := get in
  match DOMAIN_PROXIES st !! domain with
  | Some _ => ret tt
  | None => create_assignment domain
  end.

(** Line 85. *)
Definition select_proxy (domain : option string) : M (option string) :=
  let* candidates := domain_proxies_getitem domain in
  match candidates with
  | [] => ret None
  | _ =>
      let* candidates := domain_proxies_getitem domain in
      let* proxy := random_choice candidates in
      ret (Some proxy)
  end.

(** Section 4.2 of the specification, [get_assigned_proxies]: lines 79-83
    followed by the read of the entry. *)
Definition get_assigned_proxies (domain : option string) : M (list string) :=
  let* _ := assign_proxies domain in
  domain_proxies_getitem domain.

Section Controller.

Context {Response : Type}.

(** How [urlparse(u)] ends, with [netloc] for its value. *)
Variable urlparse_netloc : string → result string.

(** [flaresolverr_service.controller_v1_endpoint]. *)
Variable controller_v1_endpoint : V1RequestBase → result Response.

(** Lines 69-73. *)
Definition parse_domain (request : Request) : M (option string) :=
  match urlparse_netloc (url request) with
  | Ok netloc => ret (Some netloc)
  | Raise _ =>
      let* _ := load_name "url" in
      let* _ := modify (add_log LogParseFailure) in
      ret None
  | Diverges => lift Diverges
  end.

(** Lines 68-96: from the request to the object handed to the
    dispatcher. *)
Definition route (request : Request) : M V1RequestBase :=
  let payload := json_or (json_body request) (JDict ∅) in
  let* domain := parse_domain request in
  let session_id :=
    if optstr_truthy domain then Some "flaresolverr-default-session" else None in
  let* payload := lift (setitem payload "session" (json_of_optstr domain)) in
  let* _ := assign_proxies domain in
  let* proxy := select_proxy domain in
  let* session_id := lift (derive_session_id domain proxy) in
  let* payload := lift (setitem payload "session" (JStr session_id)) in
  let* payload := lift (setitem payload "proxy" (json_of_optstr proxy)) in
  let* _ := modify (add_log (LogSelected (py_str proxy) session_id (py_str domain))) in
  let* req := lift (new_V1RequestBase payload) in
  ret (<["url" := JStr (rewrite_url (url request))]> req).

(** Lines 68-97; turning [res] into the HTTP response (lines 98-128)
    reads [res] only and is left out. *)
Definition controller_v1 (request : Request) : M Response :=
  let* req := route request in
  lift (controller_v1_endpoint req).

(** The program of the specification's design note: [route] without the
    first [session_id] and without the write of line 76. *)
Definition route_without_presession (request : Request) : M V1RequestBase :=
  let payload := json_or (json_body request) (JDict ∅) in
  let* domain := parse_domain request in
  let* _ := assign_proxies domain in
  let* proxy := select_proxy domain in
  let* session_id := lift (derive_session_id domain proxy) in
  let* payload := lift (setitem payload "session" (JStr session_id)) in
  let* payload := lift (setitem payload "proxy" (json_of_optstr proxy)) in
  let* _ := modify (add_log (LogSelected (py_str proxy) session_id (py_str domain))) in
  let* req := lift (new_V1RequestBase payload) in
  ret (<["url" := JStr (rewrite_url (url request))]> req).

Definition controller_v1_without_presession (request : Request) : M Response :=
  let* req := route_without_presession request in
  lift (controller_v1_endpoint req).

(** What happens to the process, one after the other: a run of
    [discover_proxies], or a request handled by [controller_v1]. *)
Inductive op : Type :=
  | Discover (connect : nat → bool)
  | Handle (request : Request).

Definition exec (st : State) (o : op) : State :=
  match o with
  | Discover connect => snd (discover_proxies connect st)
  | Handle request => snd (controller_v1 request st)
  end.

Definition run (ops : list op) (st : State) : State := fold_left exec ops st.

End Controller.

(** ** A model of [urllib.parse.urlparse] *)

(** The part of [urlsplit] that yields [netloc]: an optional scheme up to
    the first colon, then, after two slashes, the text up to the next slash,
    question mark or hash sign; unbalanced square brackets in it are an
    "Invalid IPv6 URL" ([ValueError]).  Two things are left out: the
    stripping of control characters, and the check of what stands between
    balanced brackets (which must be an IPv6 or IPvFuture address: for
    [http://[example.com]/] this model yields the netloc where [urlsplit]
    raises [ValueError]).  The model is used below on URLs without
    brackets and on one with an unbalanced bracket; the properties of the
    controller hold for every parser. *)
Module UrlParse.

Definition between (lo hi : nat) (c : ascii) : bool :=
  (lo <=? nat_of_ascii c)%nat && (nat_of_ascii c <=? hi)%nat.

Definition is_alpha (c : ascii) : bool := between 65 90 c || between 97 122 c.

Definition is_scheme_char (c : ascii) : bool :=
  is_alpha c || between 48 57 c
  || Ascii.eqb c "+" || Ascii.eqb c "-" || Ascii.eqb c ".".

(** The text after the scheme: [url[i+1:]] when [url[:i]] is a scheme. *)
Fixpoint after_scheme (seen : nat) (s : string) : option string :=
  match s with
  | EmptyString => None
  | String c s' =>
      if Ascii.eqb c ":" then (if (0 <? seen)%nat then Some s' else None)
      else if (if (seen =? 0)%nat then is_alpha c else is_scheme_char c)
           then after_scheme (S seen) s'
           else None
  end.

Fixpoint until_delimiter (s : string) : string :=
  match s with
  | EmptyString => EmptyString
  | String c s' =>
      if Ascii.eqb c "/" || Ascii.eqb c "?" || Ascii.eqb c "#"
      then EmptyString
      else String c (until_delimiter s')
  end.

Definition netloc (u : string) : result string :=
  let rest := default u (after_scheme 0 u) in
  match rest with
  | String "/" (String "/" r) =>
      let n := until_delimiter r in
      if (PyStr.contains "[" n && negb (PyStr.contains "]" n))
         || (PyStr.contains "]" n && negb (PyStr.contains "[" n))
      then Raise ValueError
      else Ok n
  | _ => Ok EmptyString
  end.

End UrlParse.

Example netloc_plain : UrlParse.netloc "http://example.com:8191/v1?x=1" = Ok "example.com:8191".
Proof. reflexivity. Qed.

Example netloc_bracket : UrlParse.netloc "http://[::1/v1" = Raise ValueError.
Proof. reflexivity. Qed.

Example netloc_ipv6 : UrlParse.netloc "http://[::1]:80/" = Ok "[::1]:80".
Proof. reflexivity. Qed.

(** A dispatcher that answers with the request it was given. *)
Definition echo_endpoint (req : V1RequestBase) : result V1RequestBase := Ok req.

(** ** Handlers running in threads *)

(** The server runs every request in a thread of its own, and a thread can
    be suspended between any two steps.  The steps of a handler on what the
    threads share (the dictionary, the pool and the generator) are the
    membership test of line 79, the store of lines 80-83 with its sampling,
    and the two halves of line 85: the read of the entry for the condition,
    and the second read with the draw of [random.choice].  The numbers a
    call of [random.sample] or [random.choice] draws are taken together, at
    the step of the call. *)
Module Threads.

Inductive pc : Type :=
  | AtCheck                          (* before line 79 *)
  | AtStore                          (* the test was true: before line 80 *)
  | AtRead                           (* before the condition of line 85 *)
  | AtChoose                         (* the entry was not empty: before [random.choice] *)
  | Observed (candidates : list string) (proxy : option string)
                                     (* after line 85: the list it read last, and [proxy] *)
  | Crashed (e : exn)
  | Stuck.                           (* in a call that does not return *)

(** A handler: the domain of its request and where it stands. *)
Abbreviation handler := (option string * pc)%type.

Record config : Type := mkConfig {
  shared : State;
  threads : list handler;
  stores : nat    (* how often an entry of [DOMAIN_PROXIES] was stored *)
}.

(** The second half of line 85:
    [random.choice(DOMAIN_PROXIES[domain])]. *)
Definition choose (domain : option string) : M (list string * string) :=
  let* candidates := domain_proxies_getitem domain in
  let* proxy := random_choice candidates in
  ret (candidates, proxy).

(** One step of a handler for [domain] standing at [p]. *)
Definition step_pc (domain : option string) (p : pc) (st : State) (n : nat)
  : pc * State * nat :=
  match p with
  | AtCheck =>
      match DOMAIN_PROXIES st !! domain with
      | None => (AtStore, st, n)
      | Some _ => (AtRead, st, n)
      end
  | AtStore =>
      match create_assignment domain st with
      | (Ok _, st') => (AtRead, st', S n)
      | (Raise e, st') => (Crashed e, st', n)
      | (Diverges, st') => (Stuck, st', n)
      end
  | AtRead =>
      match domain_proxies_getitem domain st with
      | (Ok [], st') => (Observed [] None, st', n)
      | (Ok (_ :: _), st') => (AtChoose, st', n)
      | (Raise e, st') => (Crashed e, st', n)
      | (Diverges, st') => (Stuck, st', n)
      end
  | AtChoose =>
      match choose domain st with
      | (Ok (candidates, proxy), st') => (Observed candidates (Some proxy), st', n)
      | (Raise e, st') => (Crashed e, st', n)
      | (Diverges, st') => (Stuck, st', n)
      end
  | Observed _ _ | Crashed _ | Stuck => (p, st, n)
  end.

(** Thread [i] takes a step. *)
Definition step (c : config) (i : nat) : config :=
  match threads c !! i with
  | None => c
  | Some (domain, p) =>
      let '(p', st', n') := step_pc domain p (shared c) (stores c) in
      mkConfig st' (<[i := (domain, p')]> (threads c)) n'
  end.

Definition run (schedule : list nat) (c : config) : config :=
  fold_left step schedule c.

(** [n] handlers of requests for [domain] about to start. *)
Definition start (n : nat) (domain : option string) (st : State) : config :=
  mkConfig st (replicate n (domain, AtCheck)) 0.

Definition at_store (h : handler) : bool :=
  match snd h with AtStore => true | _ => false end.

(** The thread that stands between its test and its store, if any. *)
Definition pending (c : config) : option nat :=
  fst <$> list_find (λ h, at_store h) (threads c).

(** A schedule under which the test and the store of a handler are never
    separated by a step of another thread. *)
Fixpoint exclusive (schedule : list nat) (c : config) : bool :=
  match schedule with
  | [] => true
  | i :: rest =>
      match pending c with
      | Some j => bool_decide (i = j)
      | None => true
      end && exclusive rest (step c i)
  end.

(** The handlers run one after the other. *)
Definition serial (n : nat) : list nat :=
  flat_map (λ i, [i; i; i; i]) (seq 0 n).

End Threads.

(** * Properties *)

(** ** Strings *)

Section StringFacts.

Lemma string_length_app (s t : string) :
  String.length (s +:+ t) = (String.length s + String.length t)%nat.
Proof. induction s as [|c s IH]; simpl; [done | by rewrite IH]. Qed.

Lemma string_app_inv_tail (s1 s2 t : string) :
  s1 +:+ t = s2 +:+ t → s1 = s2.
Proof.
  revert s2; induction s1 as [|c s1 IH]; intros [|c' s2]; simpl; intros H.
  - done.
  - apply (f_equal String.length) in H.
    rewrite (string_length_app "" t), (string_length_app (String c' s2) t) in H.
    simpl in H. lia.
  - apply (f_equal String.length) in H.
    rewrite (string_length_app "" t), (string_length_app (String c s1) t) in H.
    simpl in H. lia.
  - injection H as -> H. f_equal. by apply IH.
Qed.

(** What [replace(".", "_")] does to one character. *)
Definition dot_to_underscore (c : ascii) : ascii :=
  if Ascii.eqb c "." then "_"%char else c.

Fixpoint map_chars (f : ascii → ascii) (s : string) : string :=
  match s with
  | EmptyString => EmptyString
  | String c s' => String (f c) (map_chars f s')
  end.

Lemma replace_dot_chars (s : string) :
  PyStr.replace "." "_" s = map_chars dot_to_underscore s.
Proof.
  unfold PyStr.replace.
  induction s as [|c s IH]; [done|].
  cbn [PyStr.replace_from String.prefix map_chars].
  unfold dot_to_underscore at 1.
  destruct (ascii_dec "." c) as [<-|Hne].
  - replace (String.prefix "" s) with true by (by destruct s).
    rewrite <- IH. reflexivity.
  - rewrite IH.
    destruct (Ascii.eqb_spec c "."); [congruence | done].
Qed.

(** Replacing the dots loses nothing on strings without an underscore. *)
Lemma replace_dot_inj (s1 s2 : string) :
  PyStr.contains "_" s1 = false → PyStr.contains "_" s2 = false →
  PyStr.replace "." "_" s1 = PyStr.replace "." "_" s2 → s1 = s2.
Proof.
  rewrite !replace_dot_chars.
  revert s2; induction s1 as [|c1 s1 IH]; intros [|c2 s2]; simpl; try done.
  intros [H1 H1']%orb_false_elim [H2 H2']%orb_false_elim H.
  injection H as Hc Hs. f_equal; [|by apply IH].
  unfold dot_to_underscore in Hc.
  destruct (Ascii.eqb_spec c1 "."), (Ascii.eqb_spec c2 "."); by subst.
Qed.

Lemma session_key_same_proxy (d1 d2 p : string) :
  session_key d1 p = session_key d2 p ↔
  PyStr.replace "." "_" d1 = PyStr.replace "." "_" d2.
Proof.
  unfold session_key. split.
  - intros H. apply (inj (String.app "flaresolverr-")) in H.
    by apply string_app_inv_tail in H.
  - by intros ->.
Qed.

Lemma session_key_same_domain (d p1 p2 : string) :
  session_key d p1 = session_key d p2 ↔
  PyStr.replace "http://" "" (PyStr.replace "." "_" p1)
  = PyStr.replace "http://" "" (PyStr.replace "." "_" p2).
Proof.
  unfold session_key. split.
  - intros H. apply (inj (String.app "flaresolverr-")) in H.
    apply (inj (String.app _)) in H. by apply (inj (String.app "-")) in H.
  - by intros ->.
Qed.

End StringFacts.

(** ** The discovered pool *)

Section PoolFacts.

Global Instance proxy_url_inj : Inj (=) (=) proxy_url.
Proof.
  intros x y H. unfold proxy_url in H.
  apply (inj (String.app "http://")) in H.
  apply string_app_inv_tail in H.
  apply (inj (String.app "10.0.")) in H.
  apply string_app_inv_tail in H.
  by apply (inj pretty) in H.
Qed.

Lemma fold_probe (connect : nat → bool) (xs : list nat) (acc : list string) :
  fold_left (probe connect) xs acc
  = acc ++ (proxy_url <$> filter (λ x, connect x) xs).
Proof.
  revert acc; induction xs as [|x xs IH]; intros acc; simpl.
  - by rewrite app_nil_r.
  - rewrite IH. unfold probe. rewrite filter_cons.
    destruct (connect x); simpl.
    + by rewrite <- app_assoc.
    + done.
Qed.

(** The pool is the list of the hosts that answered, in ascending order. *)
Lemma discover_proxies_pool (connect : nat → bool) (st : State) :
  PROXY_POOL (snd (discover_proxies connect st))
  = proxy_url <$> filter (λ x, connect x) (seq 0 120).
Proof.
  unfold discover_proxies, add_log, set_pool. cbn [snd PROXY_POOL].
  by rewrite fold_probe.
Qed.

Lemma discover_proxies_NoDup (connect : nat → bool) (st : State) :
  NoDup (PROXY_POOL (snd (discover_proxies connect st))).
Proof.
  rewrite discover_proxies_pool.
  apply (NoDup_fmap_2 _). apply NoDup_filter, NoDup_seq.
Qed.

Lemma discover_proxies_length (connect : nat → bool) (st : State) :
  (length (PROXY_POOL (snd (discover_proxies connect st))) ≤ 120)%nat.
Proof.
  rewrite discover_proxies_pool, length_fmap.
  etransitivity; [apply length_filter|]. by rewrite length_seq.
Qed.

Lemma discover_proxies_keeps_assignments (connect : nat → bool) (st : State) :
  DOMAIN_PROXIES (snd (discover_proxies connect st)) = DOMAIN_PROXIES st.
Proof. done. Qed.

(** The proxy part of a session key. *)
Definition proxy_segment (p : string) : string :=
  PyStr.replace "http://" "" (PyStr.replace "." "_" p).

Lemma proxy_segments_NoDup :
  NoDup (proxy_segment <$> (proxy_url <$> seq 0 120)).
Proof. apply (bool_decide_unpack _). vm_compute. exact I. Qed.

Lemma proxy_segment_inj (x y : nat) :
  (x < 120)%nat → (y < 120)%nat →
  proxy_segment (proxy_url x) = proxy_segment (proxy_url y) → x = y.
Proof.
  intros Hx Hy H.
  eapply (NoDup_lookup _ x y _ proxy_segments_NoDup).
  - rewrite !list_lookup_fmap, lookup_seq_lt by done. done.
  - rewrite !list_lookup_fmap, lookup_seq_lt by done. simpl. by rewrite H.
Qed.

End PoolFacts.

(** ** Session keys *)

(** C4, as stated, fails: two domains that differ only in a dot against an
    underscore get the same session key with any proxy. *)
Lemma session_key_collision :
  "my.site.com" ≠ "my_site.com" ∧
  session_key "my.site.com" "http://10.0.3.1:8888"
  = session_key "my_site.com" "http://10.0.3.1:8888".
Proof. split; [discriminate | reflexivity]. Qed.

(** C4 (amended): with the same proxy, two domains get the same session
    key exactly when they are the same after the replacement of the dots;
    so two different domains without an underscore get different keys.
    With the same domain, whatever it is, two different endpoints of the
    discovered pool (hosts 0 to 119) get different keys. *)
Theorem session_key_distinct (d1 d2 p : string) (x y : nat) :
  (x < 120)%nat → (y < 120)%nat →
  (session_key d1 p = session_key d2 p
   ↔ PyStr.replace "." "_" d1 = PyStr.replace "." "_" d2)
  ∧ (PyStr.contains "_" d1 = false → PyStr.contains "_" d2 = false →
     d1 ≠ d2 → session_key d1 p ≠ session_key d2 p)
  ∧ (x ≠ y → session_key d1 (proxy_url x) ≠ session_key d1 (proxy_url y)).
Proof.
  intros Hx Hy. split_and!.
  - apply session_key_same_proxy.
  - intros Hd1 Hd2 Hne H. apply Hne.
    apply session_key_same_proxy in H. by apply replace_dot_inj.
  - intros Hne H. apply Hne.
    apply session_key_same_domain in H. by apply proxy_segment_inj.
Qed.

Lemma session_key_distinct_witness :
  session_key "example.com" "http://10.0.3.1:8888"
  ≠ session_key "other.org" "http://10.0.3.1:8888"
  ∧ session_key "my_site.com" (proxy_url 3) ≠ session_key "my_site.com" (proxy_url 4).
Proof.
  split.
  - destruct (session_key_distinct "example.com" "other.org"
                "http://10.0.3.1:8888" 3 4) as (_ & H1 & _); [lia | lia |].
    apply H1; [reflexivity | reflexivity | discriminate].
  - destruct (session_key_distinct "my_site.com" "my_site.com"
                "http://10.0.3.1:8888" 3 4) as (_ & _ & H2); [lia | lia |].
    apply H2. lia.
Defined.

(** ** Sampling without replacement *)

Section Sampling.

Context {A : Type}.
Implicit Types (pool chosen rest : list A) (g : rng).

Lemma randbelow_lt (n : nat) g : 0 < n → fst (Random.randbelow n g) < n.
Proof.
  intros Hn. destruct g as [|r g]; simpl; [done|].
  apply Nat.mod_upper_bound. lia.
Qed.

Lemma setsize_ge (k : nat) : 21 ≤ Random.setsize k.
Proof. unfold Random.setsize. case_decide; lia. Qed.

Lemma setsize_10 : Random.setsize 10 = 85.
Proof. reflexivity. Qed.

(** Overwriting slot [j] with the last live element takes [x] out. *)
Lemma swap_out_perm (l : list A) (j : nat) (x y : A) :
  l !! j = Some x → l ++ [y] ≡ₚ x :: <[j := y]> l.
Proof.
  revert j; induction l as [|a l IH]; intros [|j] H; simplify_eq/=.
  - constructor. symmetry. apply Permutation_cons_append.
  - rewrite (IH _ H). apply perm_swap.
Qed.

Lemma sample_loop_ok (k : nat) :
  ∀ live pool g, k ≤ live → live ≤ length pool →
    ∃ chosen rest g',
      Random.sample_loop k live pool g = (Ok chosen, g')
      ∧ length chosen = k
      ∧ take live pool ≡ₚ chosen ++ rest.
Proof.
  induction k as [|k IH]; intros live pool g Hk Hlive.
  - exists [], (take live pool), g. by simpl.
  - cbn [Random.sample_loop].
    assert (fst (Random.randbelow live g) < live) as Hj
      by (apply randbelow_lt; lia).
    destruct (Random.randbelow live g) as [j g1]. simpl in Hj.
    assert (is_Some (pool !! j)) as [x Hx].
    { apply lookup_lt_is_Some_2. lia. }
    assert (is_Some (pool !! (live - 1))) as [y Hy].
    { apply lookup_lt_is_Some_2. lia. }
    rewrite Hx, Hy.
    destruct (IH (live - 1) (<[j := y]> pool) g1) as (chosen & rest & g' & -> & Hlen & Hperm);
      [lia | rewrite length_insert; lia |].
    exists (x :: chosen), rest, g'. split; [done|]. split; [simpl; lia|].
    replace live with (S (live - 1)) at 1 by lia.
    rewrite (take_S_r _ _ _ Hy). simpl. rewrite <- Hperm.
    destruct (decide (j = live - 1)) as [->|Hne].
    + assert (x = y) as -> by congruence.
      rewrite take_insert_ge by lia. symmetry. apply Permutation_cons_append.
    + rewrite take_insert_lt by lia. apply swap_out_perm.
      rewrite lookup_take_lt by lia. done.
Qed.

Lemma Forall2_impl_elem {B C} (P Q : B → C → Prop) (l : list B) (k : list C) :
  Forall2 P l k → (∀ x y, x ∈ l → P x y → Q x y) → Forall2 Q l k.
Proof.
  induction 1 as [|x y l k HP HF IH]; intros HPQ; constructor.
  - apply HPQ; [left | done].
  - apply IH. intros x' y' Hin. apply HPQ. by right.
Qed.

(** The elements at pairwise different positions of a list, together with
    the others, make up the list. *)
Lemma picks_perm chosen :
  ∀ (js : list nat) pool,
    NoDup js → Forall2 (λ j x, pool !! j = Some x) js chosen →
    ∃ rest, pool ≡ₚ chosen ++ rest.
Proof.
  induction chosen as [|x ch IH]; intros js pool Hnd HF.
  - by exists pool.
  - apply Forall2_cons_inv_r in HF as (j & js' & Hx & HF & ->).
    apply NoDup_cons in Hnd as [Hj Hnd].
    set (f := λ i, if decide (i < j) then i else pred i).
    destruct (IH (f <$> js') (delete j pool)) as [rest Hrest].
    + apply NoDup_fmap_2_strong; [|done].
      intros a b Ha Hb. unfold f.
      assert (a ≠ j) by (intros ->; done).
      assert (b ≠ j) by (intros ->; done).
      repeat case_decide; lia.
    + apply Forall2_fmap_l.
      apply (Forall2_impl_elem _ _ _ _ HF).
      intros i y Hi Hy. change (delete j pool !! f i = Some y). unfold f.
      assert (i ≠ j) by (intros ->; done).
      case_decide.
      * rewrite list_lookup_delete_lt by done. done.
      * rewrite list_lookup_delete_ge by lia.
        replace (S (pred i)) with i by lia. done.
    + exists rest. rewrite (delete_Permutation _ _ _ Hx).
      simpl. by rewrite Hrest.
Qed.

(** How many of the indices the generator has in store are not selected
    yet. *)
Definition fresh (n : nat) (selected : list nat) g : nat :=
  size (list_to_set (C := gset nat) (Random.indices n g) ∖ list_to_set selected).

Lemma fresh_nil (n : nat) (selected : list nat) :
  fresh n selected [] = if bool_decide (0 ∈ selected) then 0 else 1.
Proof.
  unfold fresh, Random.indices. simpl. case_bool_decide as H0.
  - apply size_empty_iff. set_solver.
  - assert (({[0]} ∪ ∅) ∖ list_to_set selected = ({[0]} : gset nat)) as ->
      by set_solver.
    apply size_singleton.
Qed.

Lemma fresh_cons_in (n : nat) (selected : list nat) (r : nat) g :
  r mod n ∈ selected → fresh n selected (r :: g) = fresh n selected g.
Proof.
  intros Hin. unfold fresh, Random.indices. simpl. f_equal. set_solver.
Qed.

Lemma fresh_cons_notin (n : nat) (selected : list nat) (r : nat) g :
  r mod n ∉ selected →
  fresh n selected (r :: g) = S (fresh n (r mod n :: selected) g).
Proof.
  intros Hin.
  assert (∀ (j : nat) (X Y : gset nat),
            j ∉ Y → size (({[j]} ∪ X) ∖ Y) = S (size (X ∖ ({[j]} ∪ Y)))) as Hsize.
  { intros j X Y Hj.
    assert (({[j]} ∪ X) ∖ Y = {[j]} ∪ (X ∖ ({[j]} ∪ Y))) as ->.
    { apply set_eq. intros x. destruct (decide (x = j)); set_solver. }
    rewrite size_union by set_solver. by rewrite size_singleton. }
  unfold fresh, Random.indices. simpl. apply Hsize.
  by rewrite elem_of_list_to_set.
Qed.

(** The loop that draws again on a selected index returns exactly when the
    generator has [k] indices in store that are not selected yet; what it
    returns are the elements at [k] pairwise different positions. *)
Lemma reject_loop_spec (population : list A) (n : nat) :
  n = length population → 0 < n →
  ∀ g (k : nat) (selected : list nat),
    (k ≤ fresh n selected g →
       ∃ (js : list nat) chosen g',
         Random.reject_loop population n k selected g = (Ok chosen, g')
         ∧ length js = k ∧ NoDup js ∧ (∀ j, j ∈ js → j ∉ selected)
         ∧ Forall2 (λ j x, population !! j = Some x) js chosen)
    ∧ (fresh n selected g < k →
         Random.reject_loop population n k selected g = (Diverges, [])).
Proof.
  intros Hn Hpos. induction g as [|r g IH]; intros k selected.
  - destruct k as [|k].
    { split; [|lia]. intros _. exists [], [], []. simpl.
      split_and!; [done | done | constructor | set_solver | constructor]. }
    rewrite fresh_nil. simpl. case_bool_decide as H0.
    { split; [lia | done]. }
    destruct population as [|a population]; [simpl in Hn; lia|]. simpl.
    destruct k as [|k].
    + split; [|lia]. intros _. exists [0], [a], []. simpl.
      split_and!; [done | done | | | ].
      * apply NoDup_singleton.
      * intros j Hj. apply list_elem_of_singleton in Hj as ->. done.
      * by constructor.
    + split; [lia | done].
  - destruct k as [|k].
    { split; [|lia]. intros _. exists [], [], (r :: g). simpl.
      split_and!; [done | done | constructor | set_solver | constructor]. }
    cbn [Random.reject_loop Random.randbelow fst].
    case_bool_decide as Hsel.
    { rewrite fresh_cons_in by done. apply IH. }
    rewrite fresh_cons_notin by done.
    assert (r mod n < n) as Hlt by (apply Nat.mod_upper_bound; lia).
    assert (is_Some (population !! (r mod n))) as [x Hx].
    { apply lookup_lt_is_Some_2. lia. }
    rewrite Hx.
    destruct (IH k (r mod n :: selected)) as [IH1 IH2]. split.
    + intros Hk.
      destruct IH1 as (js & chosen & g' & -> & Hlen & Hnd & Hout & HF); [lia|].
      exists (r mod n :: js), (x :: chosen), g'.
      split_and!; [done | simpl; lia | | | by constructor].
      * apply NoDup_cons. split; [|done].
        intros Hin. apply (Hout _ Hin). left.
      * intros j Hj. apply elem_of_cons in Hj as [-> | Hj]; [done|].
        intros Hin. apply (Hout _ Hj). by right.
    + intros Hk. rewrite IH2 by lia. done.
Qed.

Lemma supplies_fresh (n k : nat) g : Random.supplies n k g ↔ k ≤ fresh n [] g.
Proof.
  unfold Random.supplies, fresh. simpl.
  by rewrite difference_empty_L.
Qed.

(** [random.sample] on a population of at least [k] elements: it returns
    when the population is small enough to be copied, or when the generator
    yields [k] different indices, and does not return otherwise.  The
    sample and what is left of the population make up the population. *)
Lemma sample_spec (population : list A) (k : nat) g :
  k ≤ length population →
  (length population ≤ Random.setsize k
   ∨ Random.supplies (length population) k g →
     ∃ chosen rest g',
       Random.sample population k g = (Ok chosen, g')
       ∧ length chosen = k
       ∧ population ≡ₚ chosen ++ rest)
  ∧ (¬ (length population ≤ Random.setsize k
        ∨ Random.supplies (length population) k g) →
     Random.sample population k g = (Diverges, [])).
Proof.
  intros Hk. unfold Random.sample. rewrite decide_True by done.
  destruct (decide (length population ≤ Random.setsize k)) as [Hsmall|Hlarge].
  - split; [|tauto]. intros _.
    destruct (sample_loop_ok k (length population) population g)
      as (chosen & rest & g' & H & Hlen & Hperm); [done..|].
    rewrite take_ge in Hperm by done. eauto 10.
  - pose proof (setsize_ge k) as Hge.
    destruct (reject_loop_spec population (length population) eq_refl
                ltac:(lia) g k []) as [H1 H2].
    split.
    + intros [Hs|Hs]; [lia|]. apply supplies_fresh in Hs.
      destruct (H1 Hs) as (js & chosen & g' & Heq & Hlen & Hnd & _ & HF).
      destruct (picks_perm chosen js population Hnd HF) as [rest Hperm].
      exists chosen, rest, g'. split_and!; [done | | done].
      apply Forall2_length in HF. lia.
    + intros Hno. apply H2.
      destruct (decide (k ≤ fresh (length population) [] g)) as [Hs|Hs]; [|lia].
      exfalso. apply Hno. right. by apply supplies_fresh.
Qed.

End Sampling.

(** The call of [random.sample] on line 81 returns in the state [st]: the
    pool is copied, or the generator yields 10 different indices. *)
Definition sampling_returns (st : State) : Prop :=
  length (PROXY_POOL st) ≤ Random.setsize 10
  ∨ Random.supplies (length (PROXY_POOL st)) 10 (RNG st).

#[global] Instance sampling_returns_dec (st : State) : Decision (sampling_returns st).
Proof. unfold sampling_returns. apply _. Defined.

(** ** The steps of the controller, one by one *)

Section Steps.

Implicit Types (st : State) (d : option string) (l : list string).

Lemma bind_ok {A B} (m : M A) (k : A → M B) st a st' :
  m st = (Ok a, st') → bind m k st = k a st'.
Proof. intros H. unfold bind. by rewrite H. Qed.

Lemma bind_raise {A B} (m : M A) (k : A → M B) st e st' :
  m st = (Raise e, st') → bind m k st = (Raise e, st').
Proof. intros H. unfold bind. by rewrite H. Qed.

Lemma bind_diverges {A B} (m : M A) (k : A → M B) st st' :
  m st = (Diverges, st') → bind m k st = (Diverges, st').
Proof. intros H. unfold bind. by rewrite H. Qed.

Lemma load_name_url st : load_name "url" st = (Raise (NameError "url"), st).
Proof. reflexivity. Qed.

Lemma choice_ok {A} (seq : list A) (g : rng) :
  seq ≠ [] → ∃ x g', Random.choice seq g = (Ok x, g') ∧ x ∈ seq.
Proof.
  intros Hne. unfold Random.choice.
  assert (fst (Random.randbelow (length seq) g) < length seq) as Hj.
  { apply randbelow_lt. destruct seq; simpl; [done | lia]. }
  destruct (Random.randbelow (length seq) g) as [j g1]. simpl in Hj.
  apply lookup_lt_is_Some_2 in Hj as [x Hx].
  destruct seq as [|a seq]; [done|]. rewrite Hx.
  exists x, g1. split; [done|]. by eapply list_elem_of_lookup_2.
Qed.

(** Lines 80-83 raise nothing.  When the sampling returns they store a
    sample of the pool, or the pool; otherwise they do not return, and the
    generator is used up. *)
Lemma create_assignment_spec st d :
  (sampling_returns st →
   ∃ chosen rest g',
     create_assignment d st
     = (Ok tt, mkState (PROXY_POOL st) (<[d := chosen]> (DOMAIN_PROXIES st)) g' (LOG st))
     ∧ PROXY_POOL st ≡ₚ chosen ++ rest
     ∧ length chosen = min 10 (length (PROXY_POOL st))
     ∧ (length (PROXY_POOL st) < 10 → chosen = PROXY_POOL st ∧ g' = RNG st))
  ∧ (¬ sampling_returns st → create_assignment d st = (Diverges, set_rng [] st)).
Proof.
  destruct st as [pool dp g log].
  unfold sampling_returns, create_assignment, bind, get, random_sample,
    domain_proxies_setitem, modify.
  cbn [PROXY_POOL DOMAIN_PROXIES RNG LOG].
  destruct (decide (10 ≤ length pool)) as [Hlen|Hlen];
    cbn [PROXY_POOL DOMAIN_PROXIES RNG LOG].
  - destruct (sample_spec pool 10 g Hlen) as [H1 H2]. split.
    + intros Hr. destruct (H1 Hr) as (chosen & rest & g' & -> & Hl & Hperm).
      exists chosen, rest, g'. split_and!; [done | done | lia | lia].
    + intros Hn. by rewrite (H2 Hn).
  - split.
    + intros _. exists pool, [], g. rewrite app_nil_r.
      split_and!; [done | done | lia | done].
    + intros Hn. exfalso. apply Hn. left. rewrite setsize_10. lia.
Qed.

Lemma assign_proxies_hit st d l :
  DOMAIN_PROXIES st !! d = Some l → assign_proxies d st = (Ok tt, st).
Proof. intros H. unfold assign_proxies, bind, get. by rewrite H. Qed.

Lemma assign_proxies_miss st d :
  DOMAIN_PROXIES st !! d = None → assign_proxies d st = create_assignment d st.
Proof. intros H. unfold assign_proxies, bind, get. by rewrite H. Qed.

Lemma domain_proxies_getitem_hit st d l :
  DOMAIN_PROXIES st !! d = Some l → domain_proxies_getitem d st = (Ok l, st).
Proof. intros H. unfold domain_proxies_getitem, bind, get. by rewrite H. Qed.

Lemma select_proxy_empty st d :
  DOMAIN_PROXIES st !! d = Some [] → select_proxy d st = (Ok None, st).
Proof.
  intros H. unfold select_proxy, bind.
  by rewrite (domain_proxies_getitem_hit _ _ _ H).
Qed.

Lemma select_proxy_nonempty st d l :
  DOMAIN_PROXIES st !! d = Some l → l ≠ [] →
  ∃ p g', select_proxy d st = (Ok (Some p), set_rng g' st) ∧ p ∈ l.
Proof.
  intros H Hne. unfold select_proxy, bind.
  rewrite (domain_proxies_getitem_hit _ _ _ H).
  destruct l as [|a l]; [done|].
  rewrite (domain_proxies_getitem_hit _ _ _ H).
  destruct (choice_ok (a :: l) (RNG st) Hne) as (p & g' & Hc & Hin).
  unfold random_choice. rewrite Hc. by exists p, g'.
Qed.

End Steps.

(** ** Creation of an assignment *)

(** A pool of at most 85 endpoints is sampled from a copy: the sampling
    returns whatever the generator yields. *)
Lemma small_pool_sampling_returns (st : State) :
  length (PROXY_POOL st) ≤ 85 → sampling_returns st.
Proof. intros H. left. by rewrite setsize_10. Qed.

(** C1: for a domain without an assignment, lines 79-83 store [chosen],
    drawn from the pool without replacement: [chosen] and the endpoints
    left over make up the pool.  It has [min 10 (pool size)] elements, all
    of the pool, pairwise distinct as the endpoints of the pool are, and it
    is the pool itself when the pool has fewer than 10.  The step returns
    for every pool of at most 85 endpoints, and for a larger one (the scan
    finds up to 120) once the generator yields 10 different indices. *)
Theorem assignment_creation (st : State) (d : option string) :
  DOMAIN_PROXIES st !! d = None →
  (length (PROXY_POOL st) ≤ 85 → sampling_returns st)
  ∧ (sampling_returns st →
     ∃ chosen rest g',
       assign_proxies d st
       = (Ok tt, mkState (PROXY_POOL st) (<[d := chosen]> (DOMAIN_PROXIES st)) g' (LOG st))
       ∧ PROXY_POOL st ≡ₚ chosen ++ rest
       ∧ length chosen = min 10 (length (PROXY_POOL st))
       ∧ chosen ⊆ PROXY_POOL st
       ∧ (NoDup (PROXY_POOL st) → NoDup chosen)
       ∧ (length (PROXY_POOL st) < 10 → chosen = PROXY_POOL st)).
Proof.
  intros Hnone. split; [apply small_pool_sampling_returns|].
  intros Hr. rewrite (assign_proxies_miss _ _ Hnone).
  destruct (create_assignment_spec st d) as [Hspec _].
  destruct (Hspec Hr) as (chosen & rest & g' & Heq & Hperm & Hlen & Hsmall).
  exists chosen, rest, g'. split_and!; [done | done | done | | | ].
  - intros x Hx. rewrite Hperm. apply elem_of_app. by left.
  - intros Hnd. rewrite Hperm in Hnd. by apply NoDup_app in Hnd as (? & _ & _).
  - intros Hlt. by apply Hsmall.
Qed.

(** A pool of 100 endpoints, sampled by indices; the generator repeats
    some of them. *)
Lemma assignment_creation_witness :
  let st := snd (discover_proxies (λ x, x <? 100)
                   (initial_state [5; 4; 5; 93; 2; 1; 0; 7; 7; 93; 8; 9; 10; 11])) in
  ¬ length (PROXY_POOL st) ≤ 85
  ∧ ∃ chosen,
      DOMAIN_PROXIES (snd (assign_proxies (Some "example.com") st))
      !! Some "example.com" = Some chosen
      ∧ length chosen = 10 ∧ NoDup chosen.
Proof.
  intros st.
  assert (length (PROXY_POOL st) = 100) as Hpool by (vm_compute; reflexivity).
  split; [lia|].
  destruct (assignment_creation st (Some "example.com")) as [_ H];
    [reflexivity |].
  destruct H as (chosen & rest & g' & Heq & _ & Hlen & _ & Hnd & _).
  { right. apply (bool_decide_unpack _). vm_compute. reflexivity. }
  exists chosen. rewrite Heq. cbn [snd DOMAIN_PROXIES].
  rewrite lookup_insert_eq. split_and!; [done | | ].
  - rewrite Hlen, Hpool. reflexivity.
  - apply Hnd. subst st. apply discover_proxies_NoDup.
Defined.

(** Without 10 different indices to come, the sampling of a pool of more
    than 85 endpoints does not return, and nothing is stored. *)
Lemma assign_proxies_stalls (st : State) (d : option string) :
  DOMAIN_PROXIES st !! d = None → ¬ sampling_returns st →
  assign_proxies d st = (Diverges, set_rng [] st).
Proof.
  intros Hnone Hn. rewrite (assign_proxies_miss _ _ Hnone).
  by apply create_assignment_spec.
Qed.

(** Lines 79-83 return for the domain: it has an assignment, or the
    sampling returns. *)
Definition can_assign (st : State) (d : option string) : Prop :=
  is_Some (DOMAIN_PROXIES st !! d) ∨ sampling_returns st.

#[global] Instance can_assign_dec (st : State) (d : option string) :
  Decision (can_assign st d).
Proof. unfold can_assign. apply _. Defined.

(** ** The router *)

(** Lines 79-96 of [route], after the domain and the payload are there. *)
Definition route_tail (request : Request) (domain : option string) (payload : json)
  : M V1RequestBase :=
  let* _ := assign_proxies domain in
  let* proxy := select_proxy domain in
  let* session_id := lift (derive_session_id domain proxy) in
  let* payload := lift (setitem payload "session" (JStr session_id)) in
  let* payload := lift (setitem payload "proxy" (json_of_optstr proxy)) in
  let* _ := modify (add_log (LogSelected (py_str proxy) session_id (py_str domain))) in
  let* req := lift (new_V1RequestBase payload) in
  ret (<["url" := JStr (rewrite_url (url request))]> req).

(** The payload of a request: [request.json or {}]. *)
Definition payload_of (request : Request) : json :=
  json_or (json_body request) (JDict ∅).

(** The request object a successful [route] builds from the payload [m],
    the domain [n] and the proxy [p]. *)
Definition routed (request : Request) (m : gmap string json) (n p : string)
  : V1RequestBase :=
  <["url" := JStr (rewrite_url (url request))]>
    (<["proxy" := JStr p]> (<["session" := JStr (session_key n p)]> m)).

Section AssignFacts.

Implicit Types (st : State) (d : option string) (l : list string).

(** Lines 79-83 raise nothing.  When they return they leave an assignment
    for the domain, and touch nothing when there was one. *)
Lemma assign_proxies_total st d :
  can_assign st d →
  ∃ st1 l,
    assign_proxies d st = (Ok tt, st1)
    ∧ DOMAIN_PROXIES st1 !! d = Some l
    ∧ PROXY_POOL st1 = PROXY_POOL st
    ∧ LOG st1 = LOG st
    ∧ DOMAIN_PROXIES st ⊆ DOMAIN_PROXIES st1
    ∧ (∀ l0, DOMAIN_PROXIES st !! d = Some l0 → st1 = st)
    ∧ (DOMAIN_PROXIES st !! d = None →
       DOMAIN_PROXIES st1 = <[d := l]> (DOMAIN_PROXIES st)
       ∧ length l = min 10 (length (PROXY_POOL st))
       ∧ l ⊆ PROXY_POOL st).
Proof.
  intros Hcan.
  destruct (DOMAIN_PROXIES st !! d) as [l0|] eqn:Hd.
  - exists st, l0. rewrite (assign_proxies_hit _ _ _ Hd).
    by split_and!.
  - rewrite (assign_proxies_miss _ _ Hd).
    assert (sampling_returns st) as Hr.
    { destruct Hcan as [[? Hsome]|Hr]; [|done]. rewrite Hd in Hsome. done. }
    destruct (create_assignment_spec st d) as [Hspec _].
    destruct (Hspec Hr) as (chosen & rest & g' & -> & Hperm & Hlen & _).
    eexists _, chosen. split; [done|]. cbn [DOMAIN_PROXIES PROXY_POOL LOG].
    split_and!; try done.
    + apply lookup_insert_eq.
    + by apply insert_subseteq.
    + intros _. split_and!; [done | done |].
      intros x Hx. rewrite Hperm. apply elem_of_app. by left.
Qed.

Lemma assign_proxies_cannot st d :
  ¬ can_assign st d →
  assign_proxies d st = (Diverges, set_rng [] st)
  ∧ DOMAIN_PROXIES st !! d = None.
Proof.
  intros Hn. unfold can_assign in Hn.
  destruct (DOMAIN_PROXIES st !! d) as [l0|] eqn:Hd.
  - exfalso. apply Hn. left. by eexists.
  - split; [|done]. apply assign_proxies_stalls; [done|]. tauto.
Qed.

Lemma assign_proxies_ok_can st d st1 :
  assign_proxies d st = (Ok tt, st1) → can_assign st d.
Proof.
  intros Ha. destruct (decide (can_assign st d)) as [|Hn]; [done|].
  destruct (assign_proxies_cannot _ _ Hn). congruence.
Qed.

Lemma route_tail_spec (request : Request) (n : string) (payload : json) st :
  can_assign st (Some n) →
  ∃ st1 l,
    assign_proxies (Some n) st = (Ok tt, st1)
    ∧ DOMAIN_PROXIES st1 !! Some n = Some l
    ∧ match l with
      | [] => route_tail request (Some n) payload st = (Raise AttributeError, st1)
      | _ =>
          ∃ p g',
            p ∈ l ∧
            route_tail request (Some n) payload st
            = match payload with
              | JDict m =>
                  (Ok (routed request m n p),
                   add_log (LogSelected p (session_key n p) n) (set_rng g' st1))
              | _ => (Raise TypeError, set_rng g' st1)
              end
      end.
Proof.
  intros Hcan.
  destruct (assign_proxies_total st (Some n) Hcan) as (st1 & l & Ha & Hl & _).
  exists st1, l. split; [done|]. split; [done|].
  unfold route_tail. rewrite (bind_ok _ _ _ _ _ Ha).
  destruct l as [|a l].
  - by rewrite (bind_ok _ _ _ _ _ (select_proxy_empty _ _ Hl)).
  - destruct (select_proxy_nonempty st1 (Some n) (a :: l) Hl) as (p & g' & Hs & Hin);
      [done|].
    exists p, g'. split; [done|].
    rewrite (bind_ok _ _ _ _ _ Hs). by destruct payload.
Qed.

(** When the sampling does not return, neither does the handler. *)
Lemma route_tail_stalls (request : Request) (d : option string) (payload : json) st :
  ¬ can_assign st d →
  route_tail request d payload st = (Diverges, set_rng [] st).
Proof.
  intros Hn. destruct (assign_proxies_cannot st d Hn) as [Ha _].
  unfold route_tail. by rewrite (bind_diverges _ _ _ _ Ha).
Qed.

End AssignFacts.

Section RouterFacts.

Context {Response : Type}.
Variable urlparse_netloc : string → result string.
Variable controller_v1_endpoint : V1RequestBase → result Response.

Implicit Types (st : State) (request : Request) (d : option string).

Local Abbreviation route := (route urlparse_netloc).
Local Abbreviation route_without_presession :=
  (route_without_presession urlparse_netloc).
Local Abbreviation controller_v1 :=
  (controller_v1 urlparse_netloc controller_v1_endpoint).
Local Abbreviation controller_v1_without_presession :=
  (controller_v1_without_presession urlparse_netloc controller_v1_endpoint).
Local Abbreviation run := (run urlparse_netloc controller_v1_endpoint).
Local Abbreviation exec := (exec urlparse_netloc controller_v1_endpoint).

Lemma route_unfold request st :
  route request st
  = bind (parse_domain urlparse_netloc request)
      (λ domain,
         bind (lift (setitem (payload_of request) "session" (json_of_optstr domain)))
           (λ payload, route_tail request domain payload)) st.
Proof. reflexivity. Qed.

Lemma route_without_presession_unfold request st :
  route_without_presession request st
  = bind (parse_domain urlparse_netloc request)
      (λ domain, route_tail request domain (payload_of request)) st.
Proof. reflexivity. Qed.

Lemma parse_domain_ok request n st :
  urlparse_netloc (url request) = Ok n →
  parse_domain urlparse_netloc request st = (Ok (Some n), st).
Proof. intros H. unfold parse_domain. by rewrite H. Qed.

(** The handler of line 73 reads [url], which is not bound. *)
Lemma parse_domain_fail request e st :
  urlparse_netloc (url request) = Raise e →
  parse_domain urlparse_netloc request st = (Raise (NameError "url"), st).
Proof. intros H. unfold parse_domain. by rewrite H. Qed.

Lemma parse_domain_diverges request st :
  urlparse_netloc (url request) = Diverges →
  parse_domain urlparse_netloc request st = (Diverges, st).
Proof. intros H. unfold parse_domain. by rewrite H. Qed.

Lemma routed_overwrites_session request (m : gmap string json) (n p : string) :
  routed request (<["session" := JStr n]> m) n p = routed request m n p.
Proof. unfold routed. by rewrite insert_insert_eq. Qed.

(** All the ways [route] can go. *)
Lemma route_cases request st :
  (∃ e, urlparse_netloc (url request) = Raise e
        ∧ route request st = (Raise (NameError "url"), st))
  ∨ (∃ n, urlparse_netloc (url request) = Ok n
          ∧ (∀ m, payload_of request ≠ JDict m)
          ∧ route request st = (Raise TypeError, st))
  ∨ (∃ n m st1 l,
       urlparse_netloc (url request) = Ok n
       ∧ payload_of request = JDict m
       ∧ assign_proxies (Some n) st = (Ok tt, st1)
       ∧ DOMAIN_PROXIES st1 !! Some n = Some l
       ∧ ((l = [] ∧ route request st = (Raise AttributeError, st1))
          ∨ (∃ p g',
               p ∈ l ∧
               route request st
               = (Ok (routed request m n p),
                  add_log (LogSelected p (session_key n p) n) (set_rng g' st1)))))
  ∨ (∃ g',
       route request st = (Diverges, set_rng g' st)
       ∧ (urlparse_netloc (url request) = Diverges
          ∨ ∃ n m, urlparse_netloc (url request) = Ok n
                   ∧ payload_of request = JDict m
                   ∧ ¬ can_assign st (Some n))).
Proof.
  rewrite route_unfold.
  destruct (urlparse_netloc (url request)) as [n|e|] eqn:Hparse.
  - right. rewrite (bind_ok _ _ _ _ _ (parse_domain_ok _ _ _ Hparse)).
    destruct (payload_of request) as [| | | | |m] eqn:Hp;
      try (left; exists n; by split_and!).
    right. cbn [setitem json_of_optstr].
    rewrite (bind_ok _ _ st (JDict (<["session" := JStr n]> m)) st) by done.
    destruct (decide (can_assign st (Some n))) as [Hcan|Hcan].
    + left.
      destruct (route_tail_spec request n (JDict (<["session" := JStr n]> m)) st Hcan)
        as (st1 & l & Ha & Hl & Ht).
      exists n, m, st1, l. split_and!; try done.
      destruct l as [|a l].
      * by left.
      * right. destruct Ht as (p & g' & Hin & ->).
        exists p, g'. by rewrite routed_overwrites_session.
    + right. exists []. rewrite (route_tail_stalls _ _ _ _ Hcan).
      split; [done|]. right. by exists n, m.
  - left. exists e. split; [done|].
    by rewrite (bind_raise _ _ _ _ _ (parse_domain_fail _ _ _ Hparse)).
  - do 3 right. exists (RNG st).
    rewrite (bind_diverges _ _ _ _ (parse_domain_diverges _ _ Hparse)).
    split; [by destruct st | by left].
Qed.

Lemma controller_v1_state request st :
  snd (controller_v1 request st) = snd (route request st).
Proof.
  unfold controller_v1, bind, lift.
  by destruct (route request st) as [[req|e|] st'].
Qed.

Lemma controller_v1_raises request st e st' :
  route request st = (Raise e, st') →
  controller_v1 request st = (Raise e, st').
Proof. intros H. unfold controller_v1. by rewrite (bind_raise _ _ _ _ _ H). Qed.

Lemma controller_v1_dispatches request st req st' :
  route request st = (Ok req, st') →
  controller_v1 request st = (controller_v1_endpoint req, st').
Proof. intros H. unfold controller_v1. by rewrite (bind_ok _ _ _ _ _ H). Qed.

(** A request adds at most the assignment of its own domain; the pool is
    not touched. *)
Lemma route_extends request st :
  DOMAIN_PROXIES st ⊆ DOMAIN_PROXIES (snd (route request st))
  ∧ PROXY_POOL (snd (route request st)) = PROXY_POOL st.
Proof.
  destruct (route_cases request st)
    as [(e & _ & ->) | [(n & _ & _ & ->)
        | [(n & m & st1 & l & _ & _ & Ha & Hl & Hr) | (g' & -> & _)]]];
    [done | done | | done].
  destruct (assign_proxies_total st (Some n) (assign_proxies_ok_can _ _ _ Ha))
    as (st1' & l' & Ha' & _ & Hpool & _ & Hsub & _).
  assert (st1' = st1) as -> by congruence.
  destruct Hr as [[_ ->] | (p & g' & _ & ->)]; by cbn.
Qed.

Lemma exec_extends st (o : op) :
  DOMAIN_PROXIES st ⊆ DOMAIN_PROXIES (exec st o).
Proof.
  destruct o as [connect|request]; cbn [exec].
  - by rewrite discover_proxies_keeps_assignments.
  - rewrite controller_v1_state. apply route_extends.
Qed.

Lemma run_extends (ops : list op) st :
  DOMAIN_PROXIES st ⊆ DOMAIN_PROXIES (run ops st).
Proof.
  revert st; induction ops as [|o ops IH]; intros st; [done|].
  cbn. etransitivity; [apply exec_extends | apply IH].
Qed.

(** The endpoints of the pool stay pairwise distinct. *)
Lemma run_pool_NoDup (ops : list op) st :
  NoDup (PROXY_POOL st) → NoDup (PROXY_POOL (run ops st)).
Proof.
  revert st; induction ops as [|o ops IH]; intros st Hnd; [done|].
  cbn. apply IH. destruct o as [connect|request]; cbn [exec].
  - apply discover_proxies_NoDup.
  - rewrite controller_v1_state.
    by rewrite (proj2 (route_extends request st)).
Qed.

(** What the caller supplied under the key [k]. *)
Definition caller_field (body : json) (k : string) : option json :=
  match body with
  | JDict m => m !! k
  | _ => None
  end.

Lemma payload_of_field request (m : gmap string json) (k : string) :
  payload_of request = JDict m → m !! k = caller_field (json_body request) k.
Proof.
  unfold payload_of, json_or.
  destruct (json_truthy (json_body request)) eqn:Ht.
  - by intros ->.
  - intros [= <-].
    destruct (json_body request) as [| | | | |m']; cbn [caller_field];
      try apply lookup_empty.
    cbn in Ht. apply negb_false_iff, bool_decide_eq_true in Ht.
    apply map_size_empty_inv in Ht as ->. done.
Qed.

(** ** Pass-through of the payload *)

(** C8: when a request reaches the dispatcher, the object it is given
    carries, under every key other than [session], [proxy] and [url], just
    what the caller supplied under that key. *)
Theorem payload_fields_pass_through request st req st' (k : string) :
  route request st = (Ok req, st') →
  k ≠ "session" → k ≠ "proxy" → k ≠ "url" →
  controller_v1 request st = (controller_v1_endpoint req, st')
  ∧ req !! k = caller_field (json_body request) k.
Proof.
  intros Hroute Hs Hp Hu. split; [by apply controller_v1_dispatches|].
  destruct (route_cases request st)
    as [(e & _ & Hr) | [(n & _ & _ & Hr)
        | [(n & m & st1 & l & _ & Hm & _ & _ & Hr) | (g' & Hr & _)]]];
    [congruence | congruence | | congruence].
  destruct Hr as [[_ Hr] | (p & g' & _ & Hr)]; [congruence|].
  rewrite Hr in Hroute. injection Hroute as <- <-.
  unfold routed. rewrite !lookup_insert_ne by done.
  by apply payload_of_field.
Qed.

(** ** The first session identifier *)

Lemma route_tail_session_overwritten request d (v : json) (m : gmap string json) st :
  route_tail request d (JDict (<["session" := v]> m)) st
  = route_tail request d (JDict m) st.
Proof.
  unfold route_tail, bind.
  destruct (assign_proxies d st) as [[[]|e|] st1]; [|done|done].
  destruct (select_proxy d st1) as [[proxy|e|] st2]; [|done|done].
  unfold lift. destruct (derive_session_id d proxy) as [sid|e|]; [|done|done].
  cbn. by rewrite insert_insert_eq.
Qed.

(** C9 (amended): for a request whose payload is a dict (its JSON body is an
    object, or absent or falsy), the program without the first [session_id]
    and without the write of line 76 gives the same result and the same
    state as the program. *)
Theorem presession_dead_for_dict_payload request st (m : gmap string json) :
  payload_of request = JDict m →
  route request st = route_without_presession request st
  ∧ controller_v1 request st = controller_v1_without_presession request st.
Proof.
  intros Hm.
  assert (route request st = route_without_presession request st) as Heq.
  { rewrite route_unfold, route_without_presession_unfold. unfold bind at 1 3.
    destruct (parse_domain urlparse_netloc request st) as [[domain|e|] st0];
      [|done|done].
    rewrite Hm. cbn [setitem].
    rewrite (bind_ok _ _ st0 (JDict (<["session" := json_of_optstr domain]> m)) st0)
      by done.
    apply route_tail_session_overwritten. }
  split; [done|].
  unfold controller_v1, controller_v1_without_presession, bind.
  by rewrite Heq.
Qed.

(** ** Failures after the assignment *)

(** C3: with an empty pool (and no assignment made from a fuller one), a
    request whose URL parses and whose payload is a dict gets the empty
    assignment and no proxy, and then fails on line 87, where [replace] is
    called on [None]: the exception leaves [controller_v1], nothing is
    logged and nothing reaches the dispatcher. *)
Theorem empty_pool_raises request st n (m : gmap string json) :
  urlparse_netloc (url request) = Ok n →
  payload_of request = JDict m →
  PROXY_POOL st = [] →
  default [] (DOMAIN_PROXIES st !! Some n) = [] →
  ∃ st1,
    assign_proxies (Some n) st = (Ok tt, st1)
    ∧ DOMAIN_PROXIES st1 !! Some n = Some []
    ∧ select_proxy (Some n) st1 = (Ok None, st1)
    ∧ derive_session_id (Some n) None = Raise AttributeError
    ∧ controller_v1 request st = (Raise AttributeError, st1)
    ∧ LOG st1 = LOG st.
Proof.
  intros Hparse Hm Hpool Hold.
  assert (can_assign st (Some n)) as Hcan.
  { right. apply small_pool_sampling_returns. rewrite Hpool. simpl. lia. }
  destruct (route_cases request st)
    as [(e & He & _) | [(n' & _ & Hnd & _)
        | [(n' & m' & st1 & l & Hn & _ & Ha & Hl & Hr)
          | (g' & _ & [Hdiv | (n' & m' & Hn & _ & Hno)])]]];
    [congruence | by destruct (Hnd m) | | congruence | ].
  2: { assert (n' = n) as -> by congruence. done. }
  assert (n' = n) as -> by congruence.
  destruct (assign_proxies_total st (Some n) Hcan)
    as (st1' & l' & Ha' & Hl' & _ & Hlog & _ & Hhit & Hnew).
  assert (st1' = st1) as -> by congruence.
  assert (l' = l) as -> by congruence.
  assert (l = []) as ->.
  { destruct (DOMAIN_PROXIES st !! Some n) as [l0|] eqn:Hd.
    - rewrite (Hhit l0 eq_refl) in Hl. cbn in Hold. congruence.
    - destruct (Hnew eq_refl) as (_ & Hlen & _).
      rewrite Hpool in Hlen. by destruct l. }
  destruct Hr as [[_ Hr] | (p & g' & Hin & _)]; [|by apply elem_of_nil in Hin].
  exists st1. split_and!; [done | done | by apply select_proxy_empty | done | | done].
  by apply controller_v1_raises.
Qed.

(** C5: a request whose URL [urlparse] rejects is not recovered: the handler
    of the exception fails itself, on the unbound name [url], before the
    warning is logged, and the [NameError] leaves [controller_v1]. *)
Theorem parse_failure_not_recovered request st (e : exn) :
  urlparse_netloc (url request) = Raise e →
  parse_domain urlparse_netloc request st = (Raise (NameError "url"), st)
  ∧ controller_v1 request st = (Raise (NameError "url"), st).
Proof.
  intros Hparse. split; [by apply (parse_domain_fail _ e)|].
  apply controller_v1_raises. rewrite route_unfold.
  by rewrite (bind_raise _ _ _ _ _ (parse_domain_fail _ _ _ Hparse)).
Qed.

End RouterFacts.

(** ** Handlers that overlap *)

(** The steps of one handler in a row, with no other thread in between. *)
Fixpoint solo (m : nat) (domain : option string) (p : Threads.pc) (st : State) (n : nat)
  : Threads.pc * State * nat :=
  match m with
  | O => (p, st, n)
  | S m' =>
      let '(p', st', n') := Threads.step_pc domain p st n in
      solo m' domain p' st' n'
  end.

(** A handler of a domain whose entry is [l], that found the entry there
    on line 79 or has not tested yet: where it can stand. *)
Definition reads (l : list string) (p : Threads.pc) : Prop :=
  match p with
  | Threads.AtCheck | Threads.AtRead => True
  | Threads.AtChoose => l ≠ []
  | Threads.Observed l' q =>
      l' = l ∧ match q with None => l = [] | Some x => x ∈ l end
  | Threads.AtStore | Threads.Crashed _ | Threads.Stuck => False
  end.

Section ThreadFacts.

Import Threads.

Implicit Types (c : config) (i j k : nat) (p : pc) (d : option string).
Implicit Types (l : list string) (st : State).

Lemma set_rng_same st : set_rng (RNG st) st = st.
Proof. by destruct st. Qed.

Lemma choose_spec st d l :
  DOMAIN_PROXIES st !! d = Some l → l ≠ [] →
  ∃ x g', choose d st = (Ok (l, x), set_rng g' st) ∧ x ∈ l.
Proof.
  intros Hd Hne. unfold choose.
  rewrite (bind_ok _ _ _ _ _ (domain_proxies_getitem_hit _ _ _ Hd)).
  destruct (choice_ok l (RNG st) Hne) as (x & g' & Hc & Hin).
  exists x, g'. unfold bind, random_choice. by rewrite Hc.
Qed.

(** A step of a handler that found, or will find, the entry [l]. *)
Lemma step_pc_reads st (n : nat) d l p :
  DOMAIN_PROXIES st !! d = Some l → reads l p →
  ∃ p' g', step_pc d p st n = (p', set_rng g' st, n) ∧ reads l p'.
Proof.
  intros Hd Hp. destruct p as [| | | |l' q|e|]; cbn [reads] in Hp; try done.
  - exists AtRead, (RNG st). cbn [step_pc]. by rewrite Hd, set_rng_same.
  - cbn [step_pc]. rewrite (domain_proxies_getitem_hit _ _ _ Hd).
    destruct l as [|a l].
    + exists (Observed [] None), (RNG st). by rewrite set_rng_same.
    + exists AtChoose, (RNG st). by rewrite set_rng_same.
  - destruct (choose_spec st d l Hd Hp) as (x & g' & Hc & Hin).
    exists (Observed l (Some x)), g'. cbn [step_pc]. by rewrite Hc.
  - exists (Observed l' q), (RNG st). by rewrite set_rng_same.
Qed.

(** What a step leaves alone: the pool, the entries of the other domains,
    and its own entry unless it is the store. *)
Lemma step_pc_frame st (n : nat) d p :
  PROXY_POOL (snd (fst (step_pc d p st n))) = PROXY_POOL st
  ∧ (∀ d', d' ≠ d →
       DOMAIN_PROXIES (snd (fst (step_pc d p st n))) !! d' = DOMAIN_PROXIES st !! d')
  ∧ (p ≠ AtStore → DOMAIN_PROXIES (snd (fst (step_pc d p st n))) = DOMAIN_PROXIES st).
Proof.
  destruct p as [| | | |l' q|e|]; cbn [step_pc]; try done.
  - by destruct (DOMAIN_PROXIES st !! d).
  - destruct (decide (sampling_returns st)) as [Hr|Hn].
    + destruct (proj1 (create_assignment_spec st d) Hr) as (chosen & rest & g' & -> & _).
      cbn. split_and!; [done | | done].
      intros d' Hne. by rewrite lookup_insert_ne.
    + by rewrite (proj2 (create_assignment_spec st d) Hn).
  - unfold domain_proxies_getitem, bind, get.
    by destruct (DOMAIN_PROXIES st !! d) as [[|a l]|].
  - unfold choose, domain_proxies_getitem, bind, get, random_choice.
    destruct (DOMAIN_PROXIES st !! d) as [l|]; [|done]. cbn.
    by destruct (Random.choice l (RNG st)) as [[x|e|] g'].
Qed.

(** Once past the test a handler does not come back to it, nor to the
    store. *)
Lemma step_pc_past st (n : nat) d p :
  p ≠ AtCheck →
  fst (fst (step_pc d p st n)) ≠ AtCheck ∧ fst (fst (step_pc d p st n)) ≠ AtStore.
Proof.
  intros Hp. destruct p as [| | | |l' q|e|]; cbn [step_pc]; try done.
  - by destruct (create_assignment d st) as [[[]|e|] st'].
  - by destruct (domain_proxies_getitem d st) as [[[|a l]|e|] st'].
  - by destruct (choose d st) as [[[l x]|e|] st'].
Qed.

Lemma step_at c i d p :
  threads c !! i = Some (d, p) →
  step c i
  = let '(p', st', n') := step_pc d p (shared c) (stores c) in
    mkConfig st' (<[i := (d, p')]> (threads c)) n'.
Proof. intros H. unfold step. by rewrite H. Qed.

Lemma step_others c i j : j ≠ i → threads (step c i) !! j = threads c !! j.
Proof.
  intros Hne. unfold step.
  destruct (threads c !! i) as [[d p]|]; [|done].
  destruct (step_pc d p (shared c) (stores c)) as [[p' st'] n']. cbn.
  by rewrite list_lookup_insert_ne.
Qed.

Lemma run_app (s1 s2 : list nat) c : run (s1 ++ s2) c = run s2 (run s1 c).
Proof. apply fold_left_app. Qed.

Lemma exclusive_app (s1 s2 : list nat) c :
  exclusive (s1 ++ s2) c = exclusive s1 c && exclusive s2 (run s1 c).
Proof.
  revert c; induction s1 as [|i s1 IH]; intros c; [done|].
  cbn. rewrite IH. by rewrite andb_assoc.
Qed.

(** The steps of thread [i] in a row are those of [solo]. *)
Lemma run_solo (m : nat) :
  ∀ c i d p,
    threads c !! i = Some (d, p) →
    run (replicate m i) c
    = let '(p', st', n') := solo m d p (shared c) (stores c) in
      mkConfig st' (<[i := (d, p')]> (threads c)) n'.
Proof.
  induction m as [|m IH]; intros c i d p Hp.
  - cbn [replicate run fold_left solo].
    rewrite (list_insert_id _ _ _ Hp). by destruct c.
  - cbn [replicate run fold_left solo].
    rewrite (step_at c i d p Hp).
    destruct (step_pc d p (shared c) (stores c)) as [[p1 st1] n1].
    change (fold_left step (replicate m i) ?c0) with (run (replicate m i) c0).
    rewrite (IH _ i d p1).
    + cbn [shared stores threads].
      destruct (solo m d p1 st1 n1) as [[p' st'] n'].
      by rewrite list_insert_insert_eq.
    + cbn [threads]. apply list_lookup_insert_eq.
      by eapply lookup_lt_Some.
Qed.

(** *** Schedules that keep test and store together *)

Section Exclusive.

Variable d : option string.

Definition idle p : Prop := p = AtCheck ∨ p = Stuck.

(** All handlers are for [d].  While [d] has no assignment nothing was
    stored, and at most one handler stands between its test and its store;
    once it has one, it was stored once, and every handler that has read
    has read it. *)
Definition inv c : Prop :=
  (∀ i d' p, threads c !! i = Some (d', p) → d' = d)
  ∧ match DOMAIN_PROXIES (shared c) !! d with
    | None =>
        stores c = 0
        ∧ ∀ i p, threads c !! i = Some (d, p) →
            idle p
            ∨ (p = AtStore
               ∧ ∀ j p', threads c !! j = Some (d, p') → j ≠ i → idle p')
    | Some l =>
        stores c = 1
        ∧ ∀ i p, threads c !! i = Some (d, p) → p = Stuck ∨ reads l p
    end.

(** Thread [i] may run: no other thread is between its test and its
    store. *)
Definition allowed c i : Prop :=
  match pending c with Some j => i = j | None => True end.

Lemma pending_at_store c j :
  (∀ i d' p, threads c !! i = Some (d', p) → d' = d) →
  threads c !! j = Some (d, AtStore) →
  (∀ i p, threads c !! i = Some (d, p) → i ≠ j → idle p) →
  pending c = Some j.
Proof.
  intros Hdom Hj Hothers. unfold pending. apply fmap_Some.
  exists (j, (d, AtStore)). split; [|done].
  apply list_find_Some. split_and!; [done | done |].
  intros i [d' p] Hp Hlt Hat.
  assert (d' = d) as -> by (by eapply Hdom).
  destruct (Hothers i p Hp) as [-> | ->]; [lia | done | done].
Qed.

Lemma start_inv (n : nat) st :
  DOMAIN_PROXIES st !! d = None → inv (start n d st).
Proof.
  intros Hd. unfold inv, start. cbn. rewrite Hd. split_and!; [|done|].
  - by intros i d' p [[= -> ->] _]%lookup_replicate.
  - intros i p [[= ->] _]%lookup_replicate. left. by left.
Qed.

Lemma step_inv c i : inv c → allowed c i → inv (step c i).
Proof.
  intros [Hdom Hinv] Hallowed.
  destruct (threads c !! i) as [[d' p]|] eqn:Hp;
    [|unfold step; rewrite Hp; by split].
  assert (d' = d) as -> by (by eapply Hdom).
  rewrite (step_at c i d p Hp).
  assert (∀ p' i0 d0 p0,
            <[i := (d, p')]> (threads c) !! i0 = Some (d0, p0) → d0 = d) as Hdom'.
  { intros p' i0 d0 p0 [(_ & [= <- <-] & _)|[_ H0]]%list_lookup_insert_Some;
      [done | by eapply Hdom]. }
  destruct (DOMAIN_PROXIES (shared c) !! d) as [l|] eqn:Hd.
  - destruct Hinv as [Hs Hall].
    destruct (Hall i p Hp) as [-> | Hr].
    + cbn [step_pc]. rewrite (list_insert_id _ _ _ Hp).
      split; [done|]. cbn [shared stores threads]. by rewrite Hd.
    + destruct (step_pc_reads (shared c) (stores c) d l p Hd Hr)
        as (p' & g' & -> & Hr').
      split; [apply Hdom'|]. cbn [shared stores threads set_rng DOMAIN_PROXIES].
      rewrite Hd. split; [done|].
      intros i' p0 [(_ & [= <-] & _)|[_ Hp0]]%list_lookup_insert_Some;
        [by right | by eapply Hall].
  - destruct Hinv as [Hs Hall].
    destruct (Hall i p Hp) as [[-> | ->] | [-> Hothers]]; cbn [step_pc].
    + rewrite Hd. split; [apply Hdom'|]. cbn [shared stores threads]. rewrite Hd.
      split; [done|].
      assert (∀ j p', threads c !! j = Some (d, p') → j ≠ i → idle p') as Hidle.
      { intros j p' Hp' Hne. destruct (Hall j p' Hp') as [? | [-> Hoj]]; [done|].
        unfold allowed in Hallowed.
        rewrite (pending_at_store c j Hdom Hp' Hoj) in Hallowed. congruence. }
      intros i' p' [(<- & [= <-] & _)|[Hne Hp']]%list_lookup_insert_Some.
      * right. split; [done|].
        intros j p'' [(-> & _)|[_ Hp'']]%list_lookup_insert_Some Hji; [done|].
        by eapply Hidle.
      * left. by eapply Hidle.
    + rewrite (list_insert_id _ _ _ Hp).
      split; [done|]. cbn [shared stores threads]. by rewrite Hd.
    + destruct (decide (sampling_returns (shared c))) as [Hr|Hn].
      * destruct (proj1 (create_assignment_spec (shared c) d) Hr)
          as (chosen & rest & g' & -> & _).
        split; [apply Hdom'|]. cbn [shared stores threads DOMAIN_PROXIES].
        rewrite lookup_insert_eq. split; [by rewrite Hs|].
        intros i' p' [(_ & [= <-] & _)|[Hne Hp']]%list_lookup_insert_Some;
          [by right|].
        destruct (Hothers i' p' Hp') as [-> | ->]; [done | by right | by left].
      * rewrite (proj2 (create_assignment_spec (shared c) d) Hn).
        split; [apply Hdom'|]. cbn [shared stores threads set_rng DOMAIN_PROXIES].
        rewrite Hd. split; [done|].
        intros i' p' [(_ & [= <-] & _)|[Hne Hp']]%list_lookup_insert_Some.
        -- left. by right.
        -- left. by eapply Hothers.
Qed.

Lemma run_inv (schedule : list nat) c :
  inv c → exclusive schedule c = true → inv (run schedule c).
Proof.
  revert c; induction schedule as [|i schedule IH]; intros c Hinv Hex; [done|].
  cbn in Hex. apply andb_true_iff in Hex as [Hi Hex].
  cbn. apply IH; [|done]. apply step_inv; [done|].
  unfold allowed. destruct (pending c); [|done].
  by apply bool_decide_eq_true in Hi.
Qed.

End Exclusive.

(** *** Handlers one after the other *)

(** No thread other than [k] stands between its test and its store. *)
Definition quiet_but (k : nat) c : Prop :=
  ∀ j h, threads c !! j = Some h → j ≠ k → at_store h = false.

Definition quiet c : Prop := ∀ j h, threads c !! j = Some h → at_store h = false.

Lemma quiet_pending c k : quiet_but k c → pending c = None ∨ pending c = Some k.
Proof.
  intros Hq. unfold pending.
  destruct (list_find (λ h, at_store h) (threads c)) as [[j h]|] eqn:Hf; [|by left].
  right. cbn. f_equal.
  apply list_find_Some in Hf as (Hj & Hat & _).
  destruct (decide (j = k)) as [|Hne]; [done|].
  rewrite (Hq j h Hj Hne) in Hat. done.
Qed.

Lemma quiet_but_step c k : quiet_but k c → quiet_but k (step c k).
Proof.
  intros Hq j h Hj Hne. rewrite step_others in Hj by done. by eapply Hq.
Qed.

Lemma exclusive_replicate (m : nat) :
  ∀ c k, quiet_but k c → exclusive (replicate m k) c = true.
Proof.
  induction m as [|m IH]; intros c k Hq; [done|].
  cbn [replicate exclusive]. rewrite (IH _ _ (quiet_but_step _ _ Hq)).
  destruct (quiet_pending c k Hq) as [-> | ->]; [done|].
  by rewrite bool_decide_eq_true_2.
Qed.

(** Two steps after its test a handler is past the store. *)
Lemma solo_past (m : nat) d st (n : nat) :
  fst (fst (solo (S (S m)) d AtCheck st n)) ≠ AtCheck
  ∧ fst (fst (solo (S (S m)) d AtCheck st n)) ≠ AtStore.
Proof.
  assert (∀ m p st n, p ≠ AtCheck → p ≠ AtStore →
            fst (fst (solo m d p st n)) ≠ AtCheck
            ∧ fst (fst (solo m d p st n)) ≠ AtStore) as Hkeep.
  { clear. intros m. induction m as [|m IH]; intros p st n H1 H2; [done|].
    cbn [solo].
    pose proof (step_pc_past st n d p H1) as [H3 H4].
    destruct (step_pc d p st n) as [[p' st'] n']. by apply IH. }
  cbn [solo].
  destruct (step_pc d AtCheck st n) as [[p1 st1] n1] eqn:H1.
  assert (p1 ≠ AtCheck) as Hp1.
  { cbn [step_pc] in H1. destruct (DOMAIN_PROXIES st !! d); by injection H1 as <- _ _. }
  pose proof (step_pc_past st1 n1 d p1 Hp1) as [H3 H4].
  destruct (step_pc d p1 st1 n1) as [[p2 st2] n2]. by apply Hkeep.
Qed.

(** The four steps of handler [k], the others being outside the store:
    nothing comes between its test and its store, only its own thread
    changes, and it ends outside the store. *)
Lemma block_exclusive c k d :
  quiet c → threads c !! k = Some (d, AtCheck) →
  exclusive [k; k; k; k] c = true
  ∧ quiet (run [k; k; k; k] c)
  ∧ ∀ j, j ≠ k → threads (run [k; k; k; k] c) !! j = threads c !! j.
Proof.
  intros Hq Hk.
  change [k; k; k; k] with (replicate 4 k).
  split; [apply exclusive_replicate; intros j h Hj _; by eapply Hq|].
  rewrite (run_solo 4 c k d AtCheck Hk).
  pose proof (solo_past 2 d (shared c) (stores c)) as [_ Hps].
  destruct (solo 4 d AtCheck (shared c) (stores c)) as [[p' st'] n'].
  cbn [fst] in Hps. cbn [threads]. split.
  - intros j h [(_ & <- & _)|[_ Hj]]%list_lookup_insert_Some; [|by eapply Hq].
    unfold at_store. cbn. by destruct p'.
  - intros j Hne. by rewrite list_lookup_insert_ne.
Qed.

Lemma serial_exclusive (r : nat) :
  ∀ k c,
    quiet c →
    (∀ j, k ≤ j < k + r → ∃ d, threads c !! j = Some (d, AtCheck)) →
    exclusive (flat_map (λ i, [i; i; i; i]) (seq k r)) c = true.
Proof.
  induction r as [|r IH]; intros k c Hq Hall; [done|].
  cbn [seq flat_map]. rewrite exclusive_app.
  destruct (Hall k ltac:(lia)) as [d Hk].
  destruct (block_exclusive c k d Hq Hk) as (-> & Hq' & Hsame).
  cbn [andb]. apply IH; [done|].
  intros j Hj. rewrite Hsame by lia. apply Hall. lia.
Qed.

(** What the four steps of a handler come to when lines 79-83 return for
    its domain: it has read the entry of the domain and has its proxy. *)
Lemma solo_observes d st (n : nat) :
  can_assign st d →
  ∃ l q st' n',
    solo 4 d AtCheck st n = (Observed l q, st', n')
    ∧ DOMAIN_PROXIES st' !! d = Some l.
Proof.
  intros Hcan.
  assert (∀ st1 n1 l, DOMAIN_PROXIES st1 !! d = Some l →
            ∃ q st', solo 3 d AtRead st1 n1 = (Observed l q, st', n1)
                     ∧ DOMAIN_PROXIES st' !! d = Some l) as Hread.
  { intros st1 n1 l Hl. cbn [solo step_pc].
    rewrite (domain_proxies_getitem_hit _ _ _ Hl).
    destruct l as [|a l]; [by exists None, st1|].
    cbn [solo step_pc].
    destruct (choose_spec st1 d (a :: l) Hl) as (x & g' & -> & _); [done|].
    by exists (Some x), (set_rng g' st1). }
  destruct (DOMAIN_PROXIES st !! d) as [l|] eqn:Hd.
  - destruct (Hread st n l Hd) as (q & st' & Hs & Hl).
    exists l, q, st', n. split; [|done].
    cbn [solo step_pc]. rewrite Hd. exact Hs.
  - assert (sampling_returns st) as Hr.
    { destruct Hcan as [[? Hsome]|Hr]; [|done]. rewrite Hd in Hsome. done. }
    destruct (proj1 (create_assignment_spec st d) Hr)
      as (chosen & rest & g' & Hc & _).
    set (st1 := mkState _ _ _ _) in Hc.
    assert (DOMAIN_PROXIES st1 !! d = Some chosen) as Hl by apply lookup_insert_eq.
    cbn [solo step_pc]. rewrite Hd. cbn [solo step_pc]. rewrite Hc.
    cbn [solo step_pc]. rewrite (domain_proxies_getitem_hit _ _ _ Hl).
    destruct chosen as [|a chosen]; [by exists [], None, st1, (S n)|].
    cbn [solo step_pc].
    destruct (choose_spec st1 d (a :: chosen) Hl) as (x & g'' & -> & _); [done|].
    by exists (a :: chosen), (Some x), (set_rng g'' st1), (S n).
Qed.

(** Handlers [k], [k+1], ... run one after the other: each of them ends
    with candidates and a proxy. *)
Lemma serial_progress d (r : nat) :
  ∀ k c,
    can_assign (shared c) d →
    (∀ j, k ≤ j < k + r → threads c !! j = Some (d, AtCheck)) →
    (∀ j, k ≤ j < k + r →
       ∃ l q, threads (run (flat_map (λ i, [i; i; i; i]) (seq k r)) c) !! j
              = Some (d, Observed l q))
    ∧ (∀ j, j < k →
         threads (run (flat_map (λ i, [i; i; i; i]) (seq k r)) c) !! j
         = threads c !! j).
Proof.
  induction r as [|r IH]; intros k c Hcan Hall.
  - split; [intros j Hj; lia | done].
  - cbn [seq flat_map]. rewrite run_app.
    pose proof (Hall k ltac:(lia)) as Hk.
    pose proof (run_solo 4 c k d AtCheck Hk) as Hrun.
    change (replicate 4 k) with [k; k; k; k] in Hrun.
    destruct (solo_observes d (shared c) (stores c) Hcan)
      as (l & q & st' & n' & Hs & Hl).
    rewrite Hs in Hrun.
    set (c1 := run [k; k; k; k] c) in *.
    assert (threads c1 !! k = Some (d, Observed l q)) as Hk1.
    { rewrite Hrun. cbn [threads]. apply list_lookup_insert_eq.
      by eapply lookup_lt_Some. }
    destruct (IH (S k) c1) as [Hobs Hbefore].
    + left. rewrite Hrun. cbn [shared]. by eexists.
    + intros j Hj. rewrite Hrun. cbn [threads].
      rewrite list_lookup_insert_ne by lia. apply Hall. lia.
    + split.
      * intros j Hj. destruct (decide (j = k)) as [->|Hne].
        -- rewrite Hbefore by lia. by exists l, q.
        -- apply Hobs. lia.
      * intros j Hj. rewrite Hbefore by lia.
        rewrite Hrun. cbn [threads]. by rewrite list_lookup_insert_ne by lia.
Qed.

(** A handler that has its proxy, has failed or is stuck stays as it
    is. *)
Lemma solo_done (m : nat) d p st (n : nat) :
  match p with Observed _ _ | Crashed _ | Stuck => True | _ => False end →
  solo m d p st n = (p, st, n).
Proof.
  intros Hp. induction m as [|m IH]; [done|].
  destruct p; try done; cbn [solo step_pc]; apply IH.
Qed.

(** A handler that runs alone does what lines 79-85 do in sequence: it
    ends with the proxy, the exception or the missing return of the
    assignment step followed by the selection, in the same state. *)
Lemma solo_handler d st :
  bind (assign_proxies d) (λ _, select_proxy d) st
  = (match fst (fst (solo 4 d AtCheck st 0)) with
     | Observed _ q => Ok q
     | Crashed e => Raise e
     | _ => Diverges
     end, snd (fst (solo 4 d AtCheck st 0))).
Proof.
  assert (∀ (m : nat) st1 (n1 : nat),
            select_proxy d st1
            = (match fst (fst (solo (S (S m)) d AtRead st1 n1)) with
               | Observed _ q => Ok q
               | Crashed e => Raise e
               | _ => Diverges
               end, snd (fst (solo (S (S m)) d AtRead st1 n1)))) as Hread.
  { intros m st1 n1. cbn [solo step_pc].
    unfold select_proxy, choose, domain_proxies_getitem, bind, get, random_choice.
    destruct (DOMAIN_PROXIES st1 !! d) as [[|a l]|] eqn:Hl;
      cbn -[Random.choice solo].
    - by rewrite !solo_done.
    - unfold choose, domain_proxies_getitem, bind, get, random_choice.
      rewrite Hl. cbn -[Random.choice solo].
      destruct (Random.choice (a :: l) (RNG st1)) as [[x|e|] g'];
        cbn -[solo]; by rewrite solo_done.
    - by rewrite !solo_done. }
  cbn [solo step_pc].
  destruct (DOMAIN_PROXIES st !! d) as [l|] eqn:Hd.
  - rewrite (bind_ok _ _ _ _ _ (assign_proxies_hit _ _ _ Hd)).
    apply (Hread 1 st 0).
  - unfold bind at 1. rewrite (assign_proxies_miss _ _ Hd).
    cbn [solo step_pc].
    destruct (create_assignment d st) as [[[]|e|] st1];
      [apply (Hread 0 st1 1) | reflexivity | reflexivity].
Qed.

(** *** An entry that is there *)

(** The domain [d] has the entry [l], and each of its handlers found it
    there on line 79 or has not tested yet. *)
Definition settled d l c : Prop :=
  DOMAIN_PROXIES (shared c) !! d = Some l
  ∧ ∀ i p, threads c !! i = Some (d, p) → reads l p.

(** Whatever the handlers of any domains do from there, in any order, the
    entry stays, and the handlers of [d] work with it. *)
Lemma settled_step d l c i : settled d l c → settled d l (step c i).
Proof.
  intros [Hd Hall].
  destruct (threads c !! i) as [[d' p]|] eqn:Hp;
    [|unfold step; rewrite Hp; by split].
  rewrite (step_at c i d' p Hp).
  destruct (decide (d' = d)) as [->|Hne].
  - destruct (step_pc_reads (shared c) (stores c) d l p Hd (Hall i p Hp))
      as (p' & g' & -> & Hr').
    split; [done|]. cbn [threads].
    intros i' p0 [(_ & [= <-] & _)|[_ Hp0]]%list_lookup_insert_Some;
      [done | by eapply Hall].
  - pose proof (step_pc_frame (shared c) (stores c) d' p) as (_ & Hframe & _).
    destruct (step_pc d' p (shared c) (stores c)) as [[p' st'] n'].
    cbn [fst snd] in Hframe. split.
    + cbn [shared]. by rewrite Hframe.
    + cbn [threads].
      intros i' p0 [(_ & [= ? _] & _)|[_ Hp0]]%list_lookup_insert_Some;
        [done | by eapply Hall].
Qed.

Lemma settled_run d l (schedule : list nat) :
  ∀ c, settled d l c → settled d l (run schedule c).
Proof.
  induction schedule as [|i schedule IH]; intros c Hs; [done|].
  cbn. apply IH. by apply settled_step.
Qed.

End ThreadFacts.

(** C7, as stated, fails: the handlers of two first requests for a domain
    both find it without an assignment before either of them stores.  Each
    stores a sample of its own: two assignments are stored, the second one
    replaces the first, and the first caller has worked with a subset that
    is not the stored one, and with a proxy that is not in it. *)
Lemma overlapping_handlers_disagree :
  let st := mkState (proxy_url <$> seq 0 11) ∅
              [0; 0; 0; 0; 0; 0; 0; 0; 0; 0;  0;  1; 1; 1; 1; 1; 1; 1; 1; 1; 1;  0] [] in
  let d := Some "example.com" in
  let c := Threads.run [0; 1; 0; 0; 0; 1; 1; 1] (Threads.start 2 d st) in
  ∃ l0 p0 l1 p1,
    Threads.threads c
    = [(d, Threads.Observed l0 (Some p0)); (d, Threads.Observed l1 (Some p1))]
    ∧ l0 ≠ l1
    ∧ (p0 ∉ l1)
    ∧ DOMAIN_PROXIES (Threads.shared c) !! d = Some l1
    ∧ Threads.stores c = 2.
Proof.
  cbv zeta. eexists _, _, _, _. split_and!.
  - vm_compute. reflexivity.
  - intros H. by apply (f_equal head) in H.
  - apply (bool_decide_unpack _). vm_compute. reflexivity.
  - vm_compute. reflexivity.
  - vm_compute. reflexivity.
Qed.

(** C7 (amended): when no step of another handler comes between the
    membership test and the store of a handler, at most one assignment is
    stored for an unseen domain, and every handler that has its candidates
    has read the stored assignment and has its proxy from it.  Handlers that
    run one after the other are such a schedule; with it, when the sampling
    of the first one returns, exactly one assignment is stored and all of
    them read it. *)
Theorem exclusive_schedule_single_assignment
    (d : option string) (n : nat) (st : State) :
  DOMAIN_PROXIES st !! d = None →
  (∀ schedule : list nat,
     Threads.exclusive schedule (Threads.start n d st) = true →
     Threads.stores (Threads.run schedule (Threads.start n d st)) ≤ 1
     ∧ ∀ i l q,
         Threads.threads (Threads.run schedule (Threads.start n d st)) !! i
         = Some (d, Threads.Observed l q) →
         Threads.stores (Threads.run schedule (Threads.start n d st)) = 1
         ∧ DOMAIN_PROXIES (Threads.shared (Threads.run schedule (Threads.start n d st))) !! d
           = Some l
         ∧ match q with None => l = [] | Some x => x ∈ l end)
  ∧ Threads.exclusive (Threads.serial n) (Threads.start n d st) = true
  ∧ (0 < n → sampling_returns st →
     ∃ l,
       (∀ i, i < n →
          ∃ q, Threads.threads (Threads.run (Threads.serial n) (Threads.start n d st)) !! i
               = Some (d, Threads.Observed l q))
       ∧ Threads.stores (Threads.run (Threads.serial n) (Threads.start n d st)) = 1
       ∧ DOMAIN_PROXIES
           (Threads.shared (Threads.run (Threads.serial n) (Threads.start n d st))) !! d
         = Some l).
Proof.
  intros Hd.
  assert (∀ schedule : list nat,
            Threads.exclusive schedule (Threads.start n d st) = true →
            Threads.stores (Threads.run schedule (Threads.start n d st)) ≤ 1
            ∧ ∀ i l q,
                Threads.threads (Threads.run schedule (Threads.start n d st)) !! i
                = Some (d, Threads.Observed l q) →
                Threads.stores (Threads.run schedule (Threads.start n d st)) = 1
                ∧ DOMAIN_PROXIES
                    (Threads.shared (Threads.run schedule (Threads.start n d st))) !! d
                  = Some l
                ∧ match q with None => l = [] | Some x => x ∈ l end) as Hany.
  { intros schedule Hex.
    pose proof (run_inv d schedule _ (start_inv d n st Hd) Hex) as [_ Hinv].
    destruct (DOMAIN_PROXIES
                (Threads.shared (Threads.run schedule (Threads.start n d st))) !! d)
      as [l|]; destruct Hinv as [Hs Hall].
    - split; [lia|]. intros i l' q Hi.
      destruct (Hall i _ Hi) as [? | [-> Hq]]; [done|]. by split_and!.
    - split; [lia|]. intros i l' q Hi.
      destruct (Hall i _ Hi) as [[? | ?] | [? _]]; done. }
  assert (Threads.exclusive (Threads.serial n) (Threads.start n d st) = true) as Hex.
  { apply serial_exclusive.
    - intros j h [-> _]%lookup_replicate. done.
    - intros j Hj. exists d. apply lookup_replicate_2. lia. }
  split_and!; [done | done |].
  intros Hn Hr.
  destruct (serial_progress d n 0 (Threads.start n d st)) as [Hobs _].
  { by right. }
  { intros j Hj. apply lookup_replicate_2. lia. }
  destruct (Hobs 0 ltac:(lia)) as (l & q & H0).
  destruct (Hany _ Hex) as [_ Hall].
  destruct (Hall 0 l q H0) as (Hs & Hl & _).
  exists l. split_and!; [|done|done].
  intros i Hi. destruct (Hobs i ltac:(lia)) as (l' & q' & Hi').
  destruct (Hall i l' q' Hi') as (_ & Hl' & _).
  assert (l' = l) as -> by congruence. by exists q'.
Qed.

Lemma exclusive_schedule_single_assignment_witness :
  let st := mkState (proxy_url <$> seq 0 11) ∅
              [0; 0; 0; 0; 0; 0; 0; 0; 0; 0;  0;  1; 1; 1; 1; 1; 1; 1; 1; 1; 1;  0] [] in
  let d := Some "example.com" in
  Threads.stores (Threads.run [0; 0; 1; 1; 0; 1; 1; 0] (Threads.start 2 d st)) ≤ 1
  ∧ ∃ l, ∀ i, i < 2 →
      ∃ q, Threads.threads (Threads.run (Threads.serial 2) (Threads.start 2 d st)) !! i
           = Some (d, Threads.Observed l q).
Proof.
  cbv zeta.
  destruct (exclusive_schedule_single_assignment (Some "example.com") 2
              (mkState (proxy_url <$> seq 0 11) ∅
                 [0; 0; 0; 0; 0; 0; 0; 0; 0; 0;  0;  1; 1; 1; 1; 1; 1; 1; 1; 1; 1;  0] []))
    as (Hany & _ & Hserial); [reflexivity|].
  split.
  - apply (Hany [0; 0; 1; 1; 0; 1; 1; 0]). vm_compute. reflexivity.
  - destruct Hserial as (l & Hl & _); [lia | left; vm_compute; lia |].
    by exists l.
Defined.

(** * The properties on requests *)

(** The pool after a start at which hosts 0 to 11 answered. *)
Definition twelve_proxies (g : rng) : State :=
  snd (discover_proxies (λ x, x <? 12) (initial_state g)).

Definition get_example : Request := mkRequest "http://example.com/" JNull.

(** A dispatcher that fails. *)
Definition failing_endpoint (req : V1RequestBase) : result V1RequestBase :=
  Raise (OtherError "Error solving the challenge.").

(** ** Permanence of an assignment *)

(** C2, as stated, fails: the assignment created for a domain, with which
    a first request was served, is overwritten by the handler of an
    overlapping request that had found the domain without an assignment
    before.  A request handled after that works with other candidates. *)
Lemma stored_assignment_overwritten :
  let st := mkState (proxy_url <$> seq 0 11) ∅
              [0; 0; 0; 0; 0; 0; 0; 0; 0; 0;  0;  1; 1; 1; 1; 1; 1; 1; 1; 1; 1;  0] [] in
  let d := Some "example.com" in
  let c1 := Threads.run [0; 1; 0; 0; 0] (Threads.start 3 d st) in
  let c2 := Threads.run [1; 2; 2; 2] c1 in
  ∃ l0 p0 l1 p2,
    DOMAIN_PROXIES (Threads.shared c1) !! d = Some l0
    ∧ Threads.threads c1 !! 0 = Some (d, Threads.Observed l0 (Some p0))
    ∧ Threads.threads c1 !! 2 = Some (d, Threads.AtCheck)
    ∧ DOMAIN_PROXIES (Threads.shared c2) !! d = Some l1
    ∧ Threads.threads c2 !! 2 = Some (d, Threads.Observed l1 (Some p2))
    ∧ l1 ≠ l0
    ∧ (p0 ∉ l1).
Proof.
  cbv zeta. eexists _, _, _, _. split_and!.
  - vm_compute. reflexivity.
  - vm_compute. reflexivity.
  - vm_compute. reflexivity.
  - vm_compute. reflexivity.
  - vm_compute. reflexivity.
  - intros H. by apply (f_equal head) in H.
  - apply (bool_decide_unpack _). vm_compute. reflexivity.
Qed.

Section Permanence.

Context {Response : Type}.
Variable urlparse_netloc : string → result string.
Variable controller_v1_endpoint : V1RequestBase → result Response.

Implicit Types (st : State) (request : Request) (d : option string).

Local Abbreviation route := (route urlparse_netloc).
Local Abbreviation controller_v1 :=
  (controller_v1 urlparse_netloc controller_v1_endpoint).
Local Abbreviation run := (run urlparse_netloc controller_v1_endpoint).

(** Later lookups and requests, one after the other, for a domain that
    has the assignment [l]. *)
Lemma assigned_later (ops : list op) st d (l : list string) :
  DOMAIN_PROXIES st !! d = Some l →
  DOMAIN_PROXIES (run ops st) !! d = Some l
  ∧ get_assigned_proxies d (run ops st) = (Ok l, run ops st).
Proof.
  intros Hd.
  assert (DOMAIN_PROXIES (run ops st) !! d = Some l) as Hd'.
  { eapply lookup_weaken; [done | apply run_extends]. }
  split; [done|].
  unfold get_assigned_proxies.
  rewrite (bind_ok _ _ _ _ _ (assign_proxies_hit _ _ _ Hd')).
  by apply domain_proxies_getitem_hit.
Qed.

(** C2 (amended): an assignment that exists is not changed by what comes
    after it.  With requests handled one after the other, whatever happens
    next (requests for any domain, further runs of the discovery), no entry
    of the cache is removed or overwritten, a later lookup for the domain
    returns the same endpoints and leaves the state alone, and a later
    request for the domain picks its proxy among them without touching the
    cache.  With handlers that overlap, in any order of their steps, the
    entry stays as it is as long as every handler for the domain makes its
    membership test after the entry was stored: these handlers read it and
    take their proxy from it, whatever the handlers for other domains do,
    their stores included. *)
Theorem assignment_never_changes (ops : list op) st d (l : list string) :
  DOMAIN_PROXIES st !! d = Some l →
  DOMAIN_PROXIES st ⊆ DOMAIN_PROXIES (run ops st)
  ∧ DOMAIN_PROXIES (run ops st) !! d = Some l
  ∧ get_assigned_proxies d (run ops st) = (Ok l, run ops st)
  ∧ (∀ request n req st',
       urlparse_netloc (url request) = Ok n → d = Some n →
       route request (run ops st) = (Ok req, st') →
       DOMAIN_PROXIES st' = DOMAIN_PROXIES (run ops st)
       ∧ ∃ p, p ∈ l ∧ req !! "proxy" = Some (JStr p))
  ∧ (∀ (c : Threads.config) (schedule : list nat),
       Threads.shared c = run ops st →
       (∀ i p, Threads.threads c !! i = Some (d, p) → reads l p) →
       DOMAIN_PROXIES (Threads.shared (Threads.run schedule c)) !! d = Some l
       ∧ ∀ i p, Threads.threads (Threads.run schedule c) !! i = Some (d, p) →
           reads l p).
Proof.
  intros Hd.
  destruct (assigned_later ops st d l Hd) as [Hd' Hget].
  split_and!; [apply run_extends | done | done | |].
  - intros request n req st' Hparse -> Hroute.
    destruct (route_cases urlparse_netloc request (run ops st))
      as [(e & He & _) | [(n' & _ & _ & Hr)
          | [(n' & m & st1 & l' & Hn & _ & Ha & Hl & Hr) | (g' & Hr & _)]]];
      [congruence | congruence | | congruence].
    assert (n' = n) as -> by congruence.
    rewrite (assign_proxies_hit _ _ _ Hd') in Ha. injection Ha as <-.
    assert (l' = l) as -> by congruence.
    destruct Hr as [[_ Hr] | (p & g' & Hin & Hr)]; [congruence|].
    rewrite Hr in Hroute. injection Hroute as <- <-.
    split; [done|]. exists p. split; [done|].
    unfold routed. rewrite lookup_insert_ne by done. apply lookup_insert_eq.
  - intros c schedule Hc Hall.
    apply (settled_run d l schedule c). split; [by rewrite Hc | done].
Qed.

(** ** Failures after the assignment *)

(** C10 (amended): a first request for an unseen domain that gets as far as
    line 79 (its URL parses, its payload is a dict), and whose sampling
    returns, stores the assignment of the domain before it selects a proxy
    and derives the session key.  Whatever the outcome of the request, an
    exception of a later step included, the assignment is in the cache
    afterwards.  It is what every lookup returns to the requests handled
    after it, one after the other; and with handlers that overlap, in any
    order of their steps, it stays and is what the handlers for the domain
    read, as long as each of them makes its membership test after this
    request. *)
Theorem assignment_survives_failure request st n (m : gmap string json) :
  urlparse_netloc (url request) = Ok n →
  payload_of request = JDict m →
  DOMAIN_PROXIES st !! Some n = None →
  sampling_returns st →
  ∃ l st1,
    assign_proxies (Some n) st = (Ok tt, st1)
    ∧ route request st
      = route_tail request (Some n) (JDict (<["session" := JStr n]> m)) st
    ∧ DOMAIN_PROXIES st1 = <[Some n := l]> (DOMAIN_PROXIES st)
    ∧ DOMAIN_PROXIES (snd (controller_v1 request st)) = DOMAIN_PROXIES st1
    ∧ (∀ ops : list op,
         DOMAIN_PROXIES (run ops (snd (controller_v1 request st))) !! Some n = Some l
         ∧ get_assigned_proxies (Some n) (run ops (snd (controller_v1 request st)))
           = (Ok l, run ops (snd (controller_v1 request st))))
    ∧ (∀ (c : Threads.config) (schedule : list nat),
         Threads.shared c = snd (controller_v1 request st) →
         (∀ i p, Threads.threads c !! i = Some (Some n, p) → reads l p) →
         DOMAIN_PROXIES (Threads.shared (Threads.run schedule c)) !! Some n = Some l
         ∧ ∀ i p, Threads.threads (Threads.run schedule c) !! i = Some (Some n, p) →
             reads l p).
Proof.
  intros Hparse Hm Hnone Hreturns.
  assert (can_assign st (Some n)) as Hcan by (by right).
  destruct (assign_proxies_total st (Some n) Hcan)
    as (st1 & l & Ha & Hl & _ & _ & _ & _ & Hnew).
  destruct (Hnew Hnone) as (Hdp & _).
  assert (DOMAIN_PROXIES (snd (controller_v1 request st)) = DOMAIN_PROXIES st1) as Hafter.
  { rewrite controller_v1_state.
    destruct (route_cases urlparse_netloc request st)
      as [(e & He & _) | [(n' & _ & Hnd & _)
          | [(n' & m' & st1' & l' & Hn & _ & Ha' & _ & Hr)
            | (g' & _ & [Hdiv | (n' & m' & Hn & _ & Hno)])]]];
      [congruence | by destruct (Hnd m) | | congruence |].
    - assert (n' = n) as -> by congruence.
      assert (st1' = st1) as -> by congruence.
      by destruct Hr as [[_ ->] | (p & g' & _ & ->)].
    - assert (n' = n) as -> by congruence. done. }
  assert (DOMAIN_PROXIES (snd (controller_v1 request st)) !! Some n = Some l) as Hnow
    by (by rewrite Hafter).
  exists l, st1. split_and!; [done | | done | done | |].
  - rewrite route_unfold.
    rewrite (bind_ok _ _ _ _ _ (parse_domain_ok _ _ _ _ Hparse)).
    by rewrite Hm.
  - intros ops. by apply assigned_later.
  - intros c schedule Hc Hall.
    apply (settled_run (Some n) l schedule c). split; [by rewrite Hc | done].
Qed.

End Permanence.

Lemma assignment_never_changes_witness :
  let st :=
    snd (controller_v1 UrlParse.netloc echo_endpoint get_example
           (twelve_proxies [5; 4; 3; 2; 1; 0; 7; 7; 7; 7; 3])) in
  let ops :=
    [ Handle (mkRequest "http://other.org/" JNull);
      Discover (λ _, false);
      Handle get_example ] in
  let late :=
    Threads.mkConfig (run UrlParse.netloc echo_endpoint ops st)
      [ (Some "example.com", Threads.AtCheck);
        (Some "fresh.net", Threads.AtCheck);
        (Some "example.com", Threads.AtCheck) ] 0 in
  ∃ l,
    DOMAIN_PROXIES st !! Some "example.com" = Some l
    ∧ length l = 10
    ∧ DOMAIN_PROXIES (run UrlParse.netloc echo_endpoint ops st) !! Some "example.com"
      = Some l
    ∧ DOMAIN_PROXIES (Threads.shared (Threads.run [0; 1; 1; 2; 0; 1; 2; 2; 0; 1] late))
      !! Some "example.com" = Some l.
Proof.
  cbv zeta. eexists. split; [vm_compute; reflexivity|]. split; [reflexivity|].
  match goal with
  | |- DOMAIN_PROXIES (run _ _ ?ops ?st) !! ?d = Some ?l ∧ _ =>
      destruct (assignment_never_changes UrlParse.netloc echo_endpoint ops st d l)
        as (_ & Hlater & _ & _ & Hthreads); [vm_compute; reflexivity|]
  end.
  split; [exact Hlater|].
  match goal with
  | |- DOMAIN_PROXIES (Threads.shared (Threads.run ?s ?c)) !! _ = _ =>
      destruct (Hthreads c s) as [Hentry _]; [reflexivity | | exact Hentry]
  end.
  intros [|[|[|i]]] p Hp; cbn [Threads.threads lookup list_lookup] in Hp;
    try discriminate Hp; injection Hp as <-; exact I.
Defined.

Lemma payload_fields_pass_through_witness :
  let body := JDict {[ "cmd" := JStr "request.get"; "session" := JStr "mine" ]} in
  let request := mkRequest "http://example.com/" body in
  let out := route UrlParse.netloc request (twelve_proxies [5; 4; 3; 2; 1; 0; 7; 7; 7; 7; 3]) in
  ∃ req, fst out = Ok req
         ∧ req !! "cmd" = Some (JStr "request.get")
         ∧ req !! "session" = Some (JStr "flaresolverr-example_com-10_0_2_1:8888").
Proof.
  cbv zeta.
  set (request := mkRequest "http://example.com/" _).
  set (st := twelve_proxies _).
  pose (req := match fst (route UrlParse.netloc request st) with
               | Ok r => r
               | _ => ∅
               end).
  assert (route UrlParse.netloc request st
          = (Ok req, snd (route UrlParse.netloc request st))) as Hroute
    by (vm_compute; reflexivity).
  exists req. split; [by rewrite Hroute|]. split.
  - rewrite (proj2 (payload_fields_pass_through UrlParse.netloc echo_endpoint
                      request st req _ "cmd" Hroute
                      ltac:(discriminate) ltac:(discriminate) ltac:(discriminate))).
    vm_compute. reflexivity.
  - vm_compute. reflexivity.
Defined.

(** C9, as stated, fails: for a request whose JSON body is an array, the
    write of line 76 is where the program stops, with nothing stored.
    Without that write the request goes on to lines 79-87: with an empty
    pool it ends in another exception, and in any case with an assignment
    stored for the domain. *)
Lemma presession_is_not_dead :
  let request := mkRequest "http://example.com/" (JList [JNum 1]) in
  (controller_v1 UrlParse.netloc echo_endpoint request (initial_state [])
   = (Raise TypeError, initial_state [])
   ∧ fst (controller_v1_without_presession UrlParse.netloc echo_endpoint request
            (initial_state []))
     = Raise AttributeError)
  ∧ (DOMAIN_PROXIES
       (snd (controller_v1 UrlParse.netloc echo_endpoint request (twelve_proxies [])))
     !! Some "example.com" = None
     ∧ DOMAIN_PROXIES
         (snd (controller_v1_without_presession UrlParse.netloc echo_endpoint request
                 (twelve_proxies [])))
       !! Some "example.com" ≠ None).
Proof.
  cbv zeta. split_and!.
  - reflexivity.
  - reflexivity.
  - vm_compute. reflexivity.
  - vm_compute. discriminate.
Qed.

Lemma presession_dead_for_dict_payload_witness :
  route UrlParse.netloc get_example (twelve_proxies [5; 4; 3; 2; 1; 0; 7; 7; 7; 7; 3])
  = route_without_presession UrlParse.netloc get_example
      (twelve_proxies [5; 4; 3; 2; 1; 0; 7; 7; 7; 7; 3]).
Proof.
  apply (presession_dead_for_dict_payload UrlParse.netloc echo_endpoint get_example _ ∅).
  reflexivity.
Defined.

(** C10, as stated, fails: a first request for an unseen domain with a JSON
    array as its body stops at line 76, and no assignment is stored. *)
Lemma early_failure_stores_nothing :
  let request := mkRequest "http://example.com/" (JList [JNum 1]) in
  let st := twelve_proxies [5; 4; 3; 2; 1; 0; 7; 7; 7; 7; 3] in
  UrlParse.netloc (url request) = Ok "example.com"
  ∧ DOMAIN_PROXIES st !! Some "example.com" = None
  ∧ controller_v1 UrlParse.netloc echo_endpoint request st = (Raise TypeError, st).
Proof. cbv zeta. split_and!; reflexivity. Qed.

Lemma assignment_survives_failure_witness :
  let st := twelve_proxies [5; 4; 3; 2; 1; 0; 7; 7; 7; 7; 3] in
  let st' := snd (controller_v1 UrlParse.netloc failing_endpoint get_example st) in
  let late :=
    Threads.mkConfig st'
      [ (Some "example.com", Threads.AtCheck); (Some "example.com", Threads.AtCheck) ] 0 in
  fst (controller_v1 UrlParse.netloc failing_endpoint get_example st)
  = Raise (OtherError "Error solving the challenge.")
  ∧ ∃ l, length l = 10
         ∧ DOMAIN_PROXIES st' !! Some "example.com" = Some l
         ∧ get_assigned_proxies (Some "example.com")
             (run UrlParse.netloc failing_endpoint [Handle get_example; Handle get_example] st')
           = (Ok l, run UrlParse.netloc failing_endpoint [Handle get_example; Handle get_example] st')
         ∧ DOMAIN_PROXIES (Threads.shared (Threads.run [0; 1; 1; 0; 1; 0] late))
           !! Some "example.com" = Some l.
Proof.
  cbv zeta. split; [vm_compute; reflexivity|].
  destruct (assignment_survives_failure UrlParse.netloc failing_endpoint get_example
              (twelve_proxies [5; 4; 3; 2; 1; 0; 7; 7; 7; 7; 3]) "example.com" ∅)
    as (l & st1 & Ha & _ & Hdp & Hafter & Hlater & Hthreads);
    [reflexivity | reflexivity | reflexivity | left; vm_compute; lia |].
  exists l. split_and!.
  - destruct (assign_proxies_total (twelve_proxies [5; 4; 3; 2; 1; 0; 7; 7; 7; 7; 3])
                (Some "example.com")) as (st1' & l' & Ha' & Hl' & _ & _ & _ & _ & Hnew).
    { right. left. vm_compute. lia. }
    destruct Hnew as (Hdp' & Hlen & _); [reflexivity|].
    assert (st1' = st1) as -> by congruence.
    rewrite Hdp, lookup_insert_eq in Hl'. injection Hl' as ->.
    rewrite Hlen. reflexivity.
  - rewrite Hafter, Hdp. apply lookup_insert_eq.
  - apply Hlater.
  - match goal with
    | |- DOMAIN_PROXIES (Threads.shared (Threads.run ?s ?c)) !! _ = _ =>
        destruct (Hthreads c s) as [Hentry _]; [reflexivity | | exact Hentry]
    end.
    intros [|[|i]] p Hp; cbn [Threads.threads lookup list_lookup] in Hp;
      try discriminate Hp; injection Hp as <-; exact I.
Defined.

(** ** Where the code departs from the specification *)

Lemma empty_pool_raises_witness :
  controller_v1 UrlParse.netloc echo_endpoint get_example (initial_state [3; 1; 4])
  = (Raise AttributeError, mkState [] {[ Some "example.com" := [] ]} [3; 1; 4] []).
Proof.
  destruct (empty_pool_raises UrlParse.netloc echo_endpoint get_example
              (initial_state [3; 1; 4]) "example.com" ∅)
    as (st1 & Ha & _ & _ & _ & Hc & _);
    [reflexivity | reflexivity | reflexivity | reflexivity |].
  rewrite Hc. f_equal. by injection Ha as <-.
Defined.

Lemma parse_failure_not_recovered_witness :
  UrlParse.netloc "http://[::1/" = Raise ValueError
  ∧ controller_v1 UrlParse.netloc echo_endpoint (mkRequest "http://[::1/" JNull)
      (twelve_proxies [3; 1; 4])
    = (Raise (NameError "url"), twelve_proxies [3; 1; 4]).
Proof.
  split; [reflexivity|].
  apply (parse_failure_not_recovered UrlParse.netloc echo_endpoint
           (mkRequest "http://[::1/" JNull) (twelve_proxies [3; 1; 4]) ValueError).
  reflexivity.
Defined.

(** C6: line 96 replaces every [http] of the URL, not the scheme only: a
    host or a path that contains it is changed, and [https] becomes
    [httpss]. *)
Theorem rewrite_url_beyond_scheme :
  rewrite_url "http://httpbin.org/get" = "https://httpsbin.org/get"
  ∧ rewrite_url "http://example.com/http/status" = "https://example.com/https/status"
  ∧ rewrite_url "https://example.com/" = "httpss://example.com/"
  ∧ ∃ req st',
      route UrlParse.netloc (mkRequest "http://httpbin.org/get" JNull)
        (twelve_proxies [5; 4; 3; 2; 1; 0; 7; 7; 7; 7; 3])
      = (Ok req, st')
      ∧ req !! "url" = Some (JStr "https://httpsbin.org/get").
Proof.
  split_and!; [reflexivity..|].
  eexists _, _. split; [vm_compute; reflexivity|]. vm_compute. reflexivity.
Qed.

(** * Further properties of the code *)

(** ** The two rewrites of schemes (lines 96 and 106) *)

(** [pat in s] for strings. *)
Fixpoint substring_in (pat s : string) : bool :=
  match s with
  | EmptyString => String.prefix pat EmptyString
  | String _ s' => String.prefix pat s || substring_in pat s'
  end.

(** Line 106, "rewrite to http":
    [res.solution.response.replace("https://", "http://")]. *)
Definition rewrite_to_http (html : string) : string :=
  PyStr.replace "https://" "http://" html.

Example substring_in_yes : substring_in "http" "see http://x" = true.
Proof. reflexivity. Qed.

Example substring_in_no : substring_in "http" "example.com/htt/p" = false.
Proof. reflexivity. Qed.

Example rewrite_to_http_links :
  rewrite_to_http "<a href='https://a.b/'>https://</a>" = "<a href='http://a.b/'>http://</a>".
Proof. reflexivity. Qed.

Section RewriteFacts.

Lemma prefix_empty (s : string) : String.prefix "" s = true.
Proof. by destruct s. Qed.

Lemma prefix_cons (a c : ascii) (w s : string) :
  String.prefix (String a w) (String c s) = true ↔ a = c ∧ String.prefix w s = true.
Proof.
  cbn [String.prefix]. destruct (ascii_dec a c) as [->|Hne]; [tauto|].
  split; [done | by intros [? _]].
Qed.

(** A text in which [old] does not occur is left as it is. *)
Lemma replace_absent (old new s : string) :
  old ≠ "" → substring_in old s = false → PyStr.replace old new s = s.
Proof.
  intros Hold. unfold PyStr.replace. destruct old as [|a old]; [done|].
  induction s as [|c s IH]; [done|].
  cbn [substring_in PyStr.replace_from]. intros [Hhere Hlater]%orb_false_elim.
  rewrite Hhere. f_equal. by apply IH.
Qed.

Lemma rewrite_url_scheme (rest : string) :
  rewrite_url ("http://" +:+ rest) = "https://" +:+ rewrite_url rest.
Proof. reflexivity. Qed.

(** When the text starts with letters other than [h] after the rewrite of
    line 106, it started with them before. *)
Lemma rewrite_to_http_prefix (w : string) :
  PyStr.contains "h" w = false →
  ∀ s, String.prefix w (PyStr.replace_from "https://" "http://" 0 s) = true →
       String.prefix w s = true.
Proof.
  induction w as [|a w IH]; intros Hw s Hpre; [apply prefix_empty|].
  cbn [PyStr.contains] in Hw. apply orb_false_elim in Hw as [Ha Hw].
  destruct s as [|c s]; [done|].
  cbn [PyStr.replace_from] in Hpre.
  destruct (String.prefix "https://" (String c s)) eqn:Hmatch.
  - change ("http://" +:+ ?x) with (String "h" ("ttp://" +:+ x)) in Hpre.
    apply prefix_cons in Hpre as [-> _]. by vm_compute in Ha.
  - apply prefix_cons in Hpre as [<- Hpre]. apply prefix_cons. split; [done|].
    by apply IH.
Qed.

Lemma rewrite_to_http_from (s : string) :
  ∀ k, substring_in "https://" (PyStr.replace_from "https://" "http://" k s) = false.
Proof.
  induction s as [|c s IH]; intros k; [done|].
  cbn [PyStr.replace_from]. destruct k as [|k]; [|apply IH].
  destruct (String.prefix "https://" (String c s)) eqn:Hmatch.
  - change (String.length "https://" - 1) with 7.
    change ("http://" +:+ ?x)
      with (String "h" (String "t" (String "t" (String "p" (String ":"
              (String "/" (String "/" x))))))).
    cbn [substring_in String.prefix]. cbn. apply IH.
  - cbn [substring_in]. rewrite IH, orb_false_r.
    destruct (String.prefix "https://" (String c (PyStr.replace_from "https://" "http://" 0 s)))
      eqn:Hpre; [|done].
    apply prefix_cons in Hpre as [<- Hpre].
    apply rewrite_to_http_prefix in Hpre; [|done].
    assert (String.prefix "https://" (String "h" s) = true) as Hyes
      by (by apply prefix_cons).
    congruence.
Qed.

End RewriteFacts.

(** X11 (line 96): when [http] occurs in the URL only as its scheme, the
    dispatched URL is the URL with the scheme [https] and the rest as it
    was. *)
Theorem rewrite_url_scheme_only (rest : string) :
  substring_in "http" rest = false →
  rewrite_url ("http://" +:+ rest) = "https://" +:+ rest.
Proof.
  intros Hrest. rewrite rewrite_url_scheme. f_equal.
  by apply replace_absent.
Qed.

Lemma rewrite_url_scheme_only_witness :
  rewrite_url "http://example.com/v1?page=2" = "https://example.com/v1?page=2".
Proof. apply (rewrite_url_scheme_only "example.com/v1?page=2"). reflexivity. Defined.

(** X12 (line 106): after the rewrite no [https://] is left in the text, and
    a text without [https://] is not changed. *)
Theorem rewrite_to_http_complete (html : string) :
  substring_in "https://" (rewrite_to_http html) = false
  ∧ (substring_in "https://" html = false → rewrite_to_http html = html).
Proof.
  split.
  - apply rewrite_to_http_from.
  - by apply replace_absent.
Qed.

(** ** The shape of a session key (line 87) *)

Section KeyShape.

Lemma contains_app (c : ascii) (s t : string) :
  PyStr.contains c (s +:+ t) = PyStr.contains c s || PyStr.contains c t.
Proof.
  induction s as [|a s IH]; [done|].
  change (String a s +:+ t) with (String a (s +:+ t)).
  cbn [PyStr.contains]. by rewrite IH, orb_assoc.
Qed.

Lemma replace_dot_no_dot (s : string) :
  PyStr.contains "." (PyStr.replace "." "_" s) = false.
Proof.
  rewrite replace_dot_chars. induction s as [|c s IH]; [done|].
  cbn [map_chars PyStr.contains]. rewrite IH, orb_false_r.
  unfold dot_to_underscore. by destruct (Ascii.eqb_spec c ".") as [->|Hne%Ascii.eqb_neq];
    [|rewrite Ascii.eqb_sym].
Qed.

(** Removing occurrences of [old] adds no character. *)
Lemma remove_adds_nothing (c : ascii) (old s : string) :
  ∀ k, PyStr.contains c s = false →
       PyStr.contains c (PyStr.replace_from old "" k s) = false.
Proof.
  induction s as [|a s IH]; intros k Hs; [done|].
  cbn [PyStr.contains] in Hs. apply orb_false_elim in Hs as [Ha Hs].
  cbn [PyStr.replace_from]. destruct k as [|k]; [|by apply IH].
  destruct (String.prefix old (String a s)).
  - change ("" +:+ ?x) with x. by apply IH.
  - cbn [PyStr.contains]. by rewrite Ha, IH.
Qed.

Lemma proxy_segment_no_dot (p : string) :
  PyStr.contains "." (proxy_segment p) = false.
Proof. apply remove_adds_nothing, replace_dot_no_dot. Qed.

Lemma prefix_app (w s : string) : String.prefix w (w +:+ s) = true.
Proof.
  induction w as [|a w IH]; [apply prefix_empty|].
  change (String a w +:+ s) with (String a (w +:+ s)). by apply prefix_cons.
Qed.

Lemma pool_segments :
  Forall (λ x, proxy_segment (proxy_url x) = "10_0_" +:+ pretty x +:+ "_1:8888")
    (seq 0 120).
Proof. apply (bool_decide_unpack _). vm_compute. exact I. Qed.

End KeyShape.

(** X9 (line 87): a session key starts with the namespace [flaresolverr-]
    and contains no dot, whatever the domain and the proxy are. *)
Theorem session_key_shape (d p : string) :
  String.prefix "flaresolverr-" (session_key d p) = true
  ∧ PyStr.contains "." (session_key d p) = false.
Proof.
  unfold session_key. split; [apply prefix_app|].
  rewrite !contains_app, replace_dot_no_dot.
  fold (proxy_segment p). by rewrite proxy_segment_no_dot.
Qed.

(** X10 (lines 53 and 87): for the endpoint of host number [x] of the scanned
    range, the session key of a domain is the namespace, the domain with its
    dots replaced, and [10_0_x_1:8888]: the scheme is gone and the port is
    kept. *)
Theorem session_key_of_endpoint (d : string) (x : nat) :
  x < 120 →
  session_key d (proxy_url x)
  = "flaresolverr-" +:+ PyStr.replace "." "_" d +:+ "-10_0_" +:+ pretty x +:+ "_1:8888".
Proof.
  intros Hx. unfold session_key. fold (proxy_segment (proxy_url x)).
  pose proof pool_segments as Hall. rewrite Forall_forall in Hall.
  rewrite (Hall x) by (apply elem_of_seq; lia). reflexivity.
Qed.

Lemma session_key_of_endpoint_witness :
  proxy_url 37 = "http://10.0.37.1:8888"
  ∧ session_key "www.example.com:8191" (proxy_url 37)
    = "flaresolverr-www_example_com:8191-10_0_37_1:8888".
Proof.
  split; [vm_compute; reflexivity|].
  rewrite (session_key_of_endpoint "www.example.com:8191" 37) by lia.
  vm_compute. reflexivity.
Defined.

(** ** The discovered pool (lines 40-59) *)

(** X1: an endpoint is in the pool after [discover_proxies] exactly when it
    is the URL of a host of the scanned range, numbers 0 to 119, that
    accepted the connection. *)
Theorem discovered_iff (connect : nat → bool) (st : State) (p : string) :
  p ∈ PROXY_POOL (snd (discover_proxies connect st))
  ↔ ∃ x, x < 120 ∧ connect x = true ∧ p = proxy_url x.
Proof.
  rewrite discover_proxies_pool, list_elem_of_fmap. split.
  - intros (x & -> & [Hc Hx]%list_elem_of_filter). exists x.
    apply elem_of_seq in Hx. split_and!; [lia | by apply Is_true_eq_true | done].
  - intros (x & Hx & Hc & ->). exists x. split; [done|].
    apply list_elem_of_filter. split; [by apply Is_true_eq_left|].
    apply elem_of_seq. lia.
Qed.

Lemma discover_proxies_state (connect : nat → bool) (st : State) :
  snd (discover_proxies connect st)
  = mkState (proxy_url <$> filter (λ x, connect x) (seq 0 120))
      (DOMAIN_PROXIES st) (RNG st)
      (LOG st ++ [LogDiscovered
                    (length (proxy_url <$> filter (λ x, connect x) (seq 0 120)))
                    (proxy_url <$> filter (λ x, connect x) (seq 0 120))]).
Proof.
  unfold discover_proxies, add_log, set_pool.
  cbn [snd PROXY_POOL DOMAIN_PROXIES RNG LOG].
  rewrite fold_probe. reflexivity.
Qed.

(** X2: [discover_proxies] replaces the pool, whatever it was, by the
    endpoints that answered, in the order of the scan and without
    repetition; their number, at most 120, is what the log line reports.
    The assignments made so far and the random generator are left alone. *)
Theorem discover_proxies_result (connect : nat → bool) (st : State) :
  let st' := snd (discover_proxies connect st) in
  PROXY_POOL st' `sublist_of` (proxy_url <$> seq 0 120)
  ∧ NoDup (PROXY_POOL st')
  ∧ length (PROXY_POOL st') = length (filter (λ x, connect x) (seq 0 120))
  ∧ length (PROXY_POOL st') ≤ 120
  ∧ LOG st' = LOG st ++ [LogDiscovered (length (PROXY_POOL st')) (PROXY_POOL st')]
  ∧ DOMAIN_PROXIES st' = DOMAIN_PROXIES st
  ∧ RNG st' = RNG st
  ∧ ∀ st0, PROXY_POOL (snd (discover_proxies connect st0)) = PROXY_POOL st'.
Proof.
  cbv zeta. split_and!.
  - rewrite discover_proxies_pool. apply fmap_sublist, sublist_filter.
  - apply discover_proxies_NoDup.
  - by rewrite discover_proxies_pool, length_fmap.
  - apply discover_proxies_length.
  - rewrite discover_proxies_state. reflexivity.
  - rewrite discover_proxies_state. reflexivity.
  - rewrite discover_proxies_state. reflexivity.
  - intros st0. rewrite !discover_proxies_pool. reflexivity.
Qed.

(** ** What a request does (lines 68-97) *)

(** Whether a request for the domain [n] finds a proxy: its assignment, the
    one it has or the one it is going to get, is not empty. *)
Definition has_candidates (n : string) (st : State) : Prop :=
  match DOMAIN_PROXIES st !! Some n with
  | Some l => l ≠ []
  | None => PROXY_POOL st ≠ []
  end.

#[global] Instance has_candidates_dec (n : string) (st : State) :
  Decision (has_candidates n st).
Proof. unfold has_candidates. destruct (DOMAIN_PROXIES st !! Some n); apply _. Defined.

Section RouterMore.

Context {Response : Type}.
Variable urlparse_netloc : string → result string.
Variable controller_v1_endpoint : V1RequestBase → result Response.

Implicit Types (st : State) (request : Request).

Local Abbreviation route := (route urlparse_netloc).
Local Abbreviation controller_v1 :=
  (controller_v1 urlparse_netloc controller_v1_endpoint).
Local Abbreviation run := (run urlparse_netloc controller_v1_endpoint).

(** The assignment a request works with is empty exactly when the domain
    has no candidates. *)
Lemma assigned_empty_iff (n : string) st st1 (l : list string) :
  assign_proxies (Some n) st = (Ok tt, st1) →
  DOMAIN_PROXIES st1 !! Some n = Some l →
  l = [] ↔ ¬ has_candidates n st.
Proof.
  intros Ha Hl. unfold has_candidates.
  destruct (assign_proxies_total st (Some n) (assign_proxies_ok_can _ _ _ Ha))
    as (st1' & l' & Ha' & Hl' & _ & _ & _ & Hhit & Hnew).
  assert (st1' = st1) as -> by congruence.
  assert (l' = l) as -> by congruence.
  destruct (DOMAIN_PROXIES st !! Some n) as [l0|] eqn:Hd.
  - rewrite (Hhit l0 eq_refl) in Hl. assert (l0 = l) as -> by congruence.
    split; [by intros -> ? | intros Hn; by destruct (decide (l = []))].
  - destruct (Hnew eq_refl) as (_ & Hlen & _). split.
    + intros -> Hpool. destruct (PROXY_POOL st); [done|]. simpl in Hlen. lia.
    + intros Hn. destruct (PROXY_POOL st) as [|a pool]; [by destruct l|].
      by destruct Hn.
Qed.

(** The line 85 picks the candidate whose index is the next number of the
    generator, reduced below the number of candidates. *)
Lemma select_proxy_exact st d (l : list string) (p : string) :
  DOMAIN_PROXIES st !! d = Some l →
  l !! fst (Random.randbelow (length l) (RNG st)) = Some p →
  select_proxy d st
  = (Ok (Some p), set_rng (snd (Random.randbelow (length l) (RNG st))) st).
Proof.
  intros Hd Hp. unfold select_proxy.
  rewrite (bind_ok _ _ _ _ _ (domain_proxies_getitem_hit _ _ _ Hd)).
  destruct l as [|a l]; [done|].
  rewrite (bind_ok _ _ _ _ _ (domain_proxies_getitem_hit _ _ _ Hd)).
  unfold bind, random_choice, Random.choice.
  destruct (Random.randbelow (length (a :: l)) (RNG st)) as [j g1].
  cbn [fst snd] in *. by rewrite Hp.
Qed.

(** X3 (lines 79-83): a request leaves the pool alone, and the cache either
    as it was or with exactly one more entry, the assignment of the domain
    of the request, of size [min 10 (pool size)]; this holds whether the
    request ends well or in an exception. *)
Theorem request_adds_own_domain_only request st :
  PROXY_POOL (snd (controller_v1 request st)) = PROXY_POOL st
  ∧ (DOMAIN_PROXIES (snd (controller_v1 request st)) = DOMAIN_PROXIES st
     ∨ ∃ n l,
         urlparse_netloc (url request) = Ok n
         ∧ DOMAIN_PROXIES st !! Some n = None
         ∧ length l = min 10 (length (PROXY_POOL st))
         ∧ DOMAIN_PROXIES (snd (controller_v1 request st))
           = <[Some n := l]> (DOMAIN_PROXIES st)).
Proof.
  rewrite controller_v1_state. split; [apply route_extends|].
  destruct (route_cases urlparse_netloc request st)
    as [(e & _ & ->) | [(n & _ & _ & ->)
        | [(n & m & st1 & l & Hn & _ & Ha & Hl & Hr) | (g' & -> & _)]]];
    [by left | by left | | by left].
  destruct (assign_proxies_total st (Some n) (assign_proxies_ok_can _ _ _ Ha))
    as (st1' & l' & Ha' & Hl' & _ & _ & _ & Hhit & Hnew).
  assert (st1' = st1) as -> by congruence.
  assert (l' = l) as -> by congruence.
  assert (DOMAIN_PROXIES (snd (route request st)) = DOMAIN_PROXIES st1) as ->
    by (by destruct Hr as [[_ ->] | (p & g' & _ & ->)]).
  destruct (DOMAIN_PROXIES st !! Some n) as [l0|] eqn:Hd.
  - left. by rewrite (Hhit l0 eq_refl).
  - right. destruct (Hnew eq_refl) as (Hdp & Hlen & _). by exists n, l.
Qed.

(** X4 (lines 68-96): a request gets as far as the dispatcher exactly when
    its URL parses, its payload is a dict, its domain has candidates
    (a non-empty assignment, or none yet and a non-empty pool), and lines
    79-83 return for it (it has an assignment, or the sampling returns,
    as it does for every pool of at most 85 endpoints). *)
Theorem route_succeeds_iff request st :
  (∃ req st', route request st = (Ok req, st'))
  ↔ ∃ n m, urlparse_netloc (url request) = Ok n
           ∧ payload_of request = JDict m
           ∧ has_candidates n st
           ∧ can_assign st (Some n).
Proof.
  destruct (route_cases urlparse_netloc request st)
    as [(e & He & Hr) | [(n & Hn & Hnd & Hr)
        | [(n & m & st1 & l & Hn & Hm & Ha & Hl & Hr)
          | (g' & Hr & [Hdiv | (n & m & Hn & Hm & Hno)])]]].
  - split; [intros (req & st' & H); congruence | intros (n & m & Hn & _); congruence].
  - split; [intros (req & st' & H); congruence|].
    intros (n' & m & _ & Hm & _). by destruct (Hnd m).
  - pose proof (assigned_empty_iff n st st1 l Ha Hl) as Hiff.
    destruct Hr as [[-> Hr] | (p & g' & Hin & Hr)].
    + split; [intros (req & st' & H); congruence|].
      intros (n' & m' & Hn' & _ & Hc & _). assert (n' = n) as -> by congruence.
      by destruct (proj1 Hiff eq_refl).
    + split; [|by eauto]. intros _. exists n, m.
      split_and!; [done | done | | by eapply assign_proxies_ok_can].
      destruct (decide (has_candidates n st)) as [|Hno]; [done|].
      apply Hiff in Hno as ->. by apply elem_of_nil in Hin.
  - split; [intros (req & st' & H); congruence | intros (n & m & Hn & _); congruence].
  - split; [intros (req & st' & H); congruence|].
    intros (n' & m' & Hn' & _ & _ & Hcan). assert (n' = n) as -> by congruence. done.
Qed.

(** X5 (lines 68-96): the only exceptions of the routing are the [NameError]
    of line 73 (the URL does not parse; no state is changed), the
    [TypeError] of line 76 (the payload is no dict; no state is changed) and
    the [AttributeError] of line 87 (the domain has no candidates; the empty
    assignment is stored, nothing is logged).  A [KeyError], [IndexError]
    or [ValueError] never comes out of lines 79-85. *)
Theorem route_failures request st (e : exn) st' :
  route request st = (Raise e, st') →
  (e = NameError "url" ∧ st' = st ∧ ∃ e0, urlparse_netloc (url request) = Raise e0)
  ∨ (e = TypeError ∧ st' = st
     ∧ ∃ n, urlparse_netloc (url request) = Ok n ∧ ∀ m, payload_of request ≠ JDict m)
  ∨ (e = AttributeError
     ∧ ∃ n m, urlparse_netloc (url request) = Ok n
              ∧ payload_of request = JDict m
              ∧ ¬ has_candidates n st
              ∧ DOMAIN_PROXIES st' !! Some n = Some []
              ∧ LOG st' = LOG st).
Proof.
  intros Hroute.
  destruct (route_cases urlparse_netloc request st)
    as [(e0 & He & Hr) | [(n & Hn & Hnd & Hr)
        | [(n & m & st1 & l & Hn & Hm & Ha & Hl & Hr) | (g' & Hr & _)]]].
  - left. rewrite Hr in Hroute. injection Hroute as <- <-. eauto.
  - right; left. rewrite Hr in Hroute. injection Hroute as <- <-. eauto.
  - right; right. destruct Hr as [[-> Hr] | (p & g' & _ & Hr)]; [|congruence].
    rewrite Hr in Hroute. injection Hroute as <- <-. split; [done|].
    exists n, m. split_and!; [done | done | | done |].
    + by apply (assigned_empty_iff n st st1 [] Ha Hl).
    + destruct (assign_proxies_total st (Some n) (assign_proxies_ok_can _ _ _ Ha))
        as (st1' & l' & Ha' & _ & _ & Hlog & _).
      by assert (st1' = st1) as -> by congruence.
  - congruence.
Qed.

(** X6 (lines 85-96): in the object handed to the dispatcher, [proxy] is a
    member of the assignment of the domain, [session] is the session key of
    the domain and that proxy, and [url] is the rewritten URL of the
    request, whatever the caller supplied under these keys; the request
    adds one line to the log, naming the three. *)
Theorem route_sets_fields request st (req : V1RequestBase) st' :
  route request st = (Ok req, st') →
  ∃ n p l,
    urlparse_netloc (url request) = Ok n
    ∧ DOMAIN_PROXIES st' !! Some n = Some l
    ∧ p ∈ l
    ∧ req !! "proxy" = Some (JStr p)
    ∧ req !! "session" = Some (JStr (session_key n p))
    ∧ req !! "url" = Some (JStr (rewrite_url (url request)))
    ∧ LOG st' = LOG st ++ [LogSelected p (session_key n p) n].
Proof.
  intros Hroute.
  destruct (route_cases urlparse_netloc request st)
    as [(e0 & He & Hr) | [(n & Hn & Hnd & Hr)
        | [(n & m & st1 & l & Hn & Hm & Ha & Hl & Hr) | (g' & Hr & _)]]];
    [congruence | congruence | | congruence].
  destruct Hr as [[_ Hr] | (p & g' & Hin & Hr)]; [congruence|].
  rewrite Hr in Hroute. injection Hroute as <- <-.
  destruct (assign_proxies_total st (Some n) (assign_proxies_ok_can _ _ _ Ha))
    as (st1' & l' & Ha' & _ & _ & Hlog & _).
  assert (st1' = st1) as -> by congruence.
  exists n, p, l. unfold routed. split_and!; [done | done | done | | | |].
  - rewrite lookup_insert_ne by done. apply lookup_insert_eq.
  - rewrite !lookup_insert_ne by done. apply lookup_insert_eq.
  - apply lookup_insert_eq.
  - cbn. by rewrite Hlog.
Qed.

(** X7 (line 85): the proxy is chosen anew for every request: for a domain
    with an assignment, every member of the assignment is the proxy of a
    request for some state of the random generator. *)
Theorem any_candidate_can_be_selected request st n (m : gmap string json)
    (l : list string) (p : string) :
  urlparse_netloc (url request) = Ok n →
  payload_of request = JDict m →
  DOMAIN_PROXIES st !! Some n = Some l →
  p ∈ l →
  ∃ g st', route request (set_rng g st) = (Ok (routed request m n p), st')
           ∧ DOMAIN_PROXIES st' = DOMAIN_PROXIES st.
Proof.
  intros Hparse Hm Hd Hin.
  apply list_elem_of_lookup in Hin as [i Hi].
  pose proof (lookup_lt_Some _ _ _ Hi) as Hlt.
  exists [i]. eexists. rewrite route_unfold.
  rewrite (bind_ok _ _ _ _ _ (parse_domain_ok _ _ _ _ Hparse)).
  rewrite Hm. cbn [setitem json_of_optstr].
  rewrite (bind_ok _ _ (set_rng [i] st) (JDict (<["session" := JStr n]> m)) (set_rng [i] st))
    by done.
  unfold route_tail.
  rewrite (bind_ok _ _ _ _ _ (assign_proxies_hit (set_rng [i] st) (Some n) l Hd)).
  rewrite (bind_ok _ _ _ _ _ (select_proxy_exact (set_rng [i] st) (Some n) l p Hd
                               ltac:(cbn; by rewrite Nat.mod_small))).
  cbn. rewrite insert_insert_eq. split; reflexivity.
Qed.

(** X8 (lines 79-87): a domain that was given the empty assignment stays
    without a proxy: whatever happens afterwards, a new discovery included,
    every request for it whose payload is a dict ends in the
    [AttributeError] of line 87. *)
Theorem empty_assignment_is_permanent (ops : list op) request st n
    (m : gmap string json) :
  DOMAIN_PROXIES st !! Some n = Some [] →
  urlparse_netloc (url request) = Ok n →
  payload_of request = JDict m →
  controller_v1 request (run ops st) = (Raise AttributeError, run ops st).
Proof.
  intros Hd Hparse Hm.
  assert (DOMAIN_PROXIES (run ops st) !! Some n = Some []) as Hd'.
  { eapply lookup_weaken; [done | apply run_extends]. }
  apply controller_v1_raises.
  destruct (route_cases urlparse_netloc request (run ops st))
    as [(e0 & He & Hr) | [(n' & Hn & Hnd & Hr)
        | [(n' & m' & st1 & l & Hn & _ & Ha & Hl & Hr)
          | (g' & _ & [Hdiv | (n' & m' & Hn & _ & Hno)])]]];
    [congruence | by destruct (Hnd m) | | congruence |].
  - assert (n' = n) as -> by congruence.
    rewrite (assign_proxies_hit _ _ _ Hd') in Ha. injection Ha as <-.
    assert (l = []) as -> by congruence.
    destruct Hr as [[_ Hr] | (p & g' & Hin & _)]; [done | by apply elem_of_nil in Hin].
  - assert (n' = n) as -> by congruence.
    exfalso. apply Hno. left. by eexists.
Qed.

End RouterMore.

(** ** Overlapping handlers, whatever the schedule (lines 79-85) *)

(** [l] can be the assignment made from [pool]: drawn from it without
    replacement, [min 10 (pool size)] long. *)
Definition drawn_from (pool l : list string) : Prop :=
  (∃ rest, pool ≡ₚ l ++ rest) ∧ length l = min 10 (length pool).

Section ThreadsMore.

Import Threads.

Variable d : option string.
Variable pool : list string.

Implicit Types (c : config) (i : nat) (p : pc).

(** What holds of the handlers for [d] under every schedule. *)
Definition safe c : Prop :=
  PROXY_POOL (shared c) = pool
  ∧ (∀ l, DOMAIN_PROXIES (shared c) !! d = Some l → drawn_from pool l)
  ∧ ∀ i d' p, threads c !! i = Some (d', p) →
      d' = d
      ∧ match p with
        | AtCheck | AtStore => True
        | AtRead => is_Some (DOMAIN_PROXIES (shared c) !! d)
        | AtChoose => is_Some (DOMAIN_PROXIES (shared c) !! d) ∧ pool ≠ []
        | Observed l q =>
            drawn_from pool l ∧ match q with None => l = [] | Some x => x ∈ l end
        | Crashed _ => False
        | Stuck => 85 < length pool
        end.

Lemma start_safe (n : nat) (st : State) :
  PROXY_POOL st = pool → DOMAIN_PROXIES st !! d = None → safe (start n d st).
Proof.
  intros Hpool Hd. unfold safe, start. cbn. split_and!; [done | |].
  - intros l Hl. congruence.
  - by intros i d' p [[= -> ->] _]%lookup_replicate.
Qed.

Lemma drawn_from_nonempty (l : list string) :
  drawn_from pool l → pool ≠ [] → l ≠ [].
Proof.
  intros [_ Hlen] Hpool ->. destruct pool; [done|]. simpl in Hlen. lia.
Qed.

Lemma step_safe c i : safe c → safe (step c i).
Proof.
  intros (Hpool & Hentry & Hthreads).
  destruct (threads c !! i) as [[d' p]|] eqn:Hp;
    [|unfold step; by rewrite Hp].
  rewrite (step_at c i d' p Hp).
  destruct (Hthreads i d' p Hp) as [-> Hi].
  destruct p as [| | | |l q|e|]; cbn [step_pc]; [| | | | |done|].
  - assert (safe (mkConfig (shared c)
                    (<[i := (d, match DOMAIN_PROXIES (shared c) !! d with
                                | None => AtStore
                                | Some _ => AtRead
                                end)]> (threads c)) (stores c))) as Hsafe.
    { split_and!; cbn; [done | done |].
      intros j d' p' [(_ & [= <- <-] & _)|[_ Hp']]%list_lookup_insert_Some;
        [|by apply (Hthreads j)].
      split; [done|]. by destruct (DOMAIN_PROXIES (shared c) !! d). }
    by destruct (DOMAIN_PROXIES (shared c) !! d).
  - destruct (decide (sampling_returns (shared c))) as [Hr|Hn].
    + destruct (proj1 (create_assignment_spec (shared c) d) Hr)
        as (chosen & rest & g' & -> & Hperm & Hlen & _).
      rewrite Hpool in Hperm, Hlen.
      split_and!; cbn; [done | |].
      * rewrite lookup_insert_eq. intros l [= <-]. split; [by exists rest | done].
      * rewrite lookup_insert_eq.
        intros j d' p' [(_ & [= <- <-] & _)|[_ Hp']]%list_lookup_insert_Some; [done|].
        destruct (Hthreads j d' p' Hp') as [-> Hj]. split; [done|].
        destruct p'; try done. by destruct Hj.
    + rewrite (proj2 (create_assignment_spec (shared c) d) Hn).
      split_and!; cbn; [done | done |].
      intros j d' p' [(_ & [= <- <-] & _)|[_ Hp']]%list_lookup_insert_Some;
        [|by apply (Hthreads j)].
      split; [done|].
      destruct (decide (85 < length pool)) as [|Hsmall]; [done|].
      exfalso. apply Hn, small_pool_sampling_returns. rewrite Hpool. lia.
  - destruct Hi as [l Hd]. rewrite (domain_proxies_getitem_hit _ _ _ Hd).
    pose proof (Hentry l Hd) as Hl.
    destruct l as [|a l].
    + split_and!; cbn; [done | done |].
      intros j d' p' [(_ & [= <- <-] & _)|[_ Hp']]%list_lookup_insert_Some;
        [done | by apply (Hthreads j)].
    + split_and!; cbn; [done | done |].
      intros j d' p' [(_ & [= <- <-] & _)|[_ Hp']]%list_lookup_insert_Some;
        [|by apply (Hthreads j)].
      split; [done|]. split; [by eexists|].
      intros Hnil. destruct Hl as [_ Hlen]. rewrite Hnil in Hlen. done.
  - destruct Hi as [[l Hd] Hne].
    pose proof (Hentry l Hd) as Hl.
    destruct (choose_spec (shared c) d l Hd (drawn_from_nonempty l Hl Hne))
      as (x & g' & -> & Hin).
    split_and!; cbn; [done | done |].
    intros j d' p' [(_ & [= <- <-] & _)|[_ Hp']]%list_lookup_insert_Some;
      [done | by apply (Hthreads j)].
  - rewrite (list_insert_id _ _ _ Hp). by split_and!.
  - rewrite (list_insert_id _ _ _ Hp). by split_and!.
Qed.

Lemma run_safe (schedule : list nat) c : safe c → safe (run schedule c).
Proof.
  revert c; induction schedule as [|i schedule IH]; intros c Hc; [done|].
  cbn. by apply IH, step_safe.
Qed.

End ThreadsMore.

(** X13 (lines 79-85): however the handlers of first requests for a domain
    are interleaved, none of them fails on the cache (no [KeyError] or
    [IndexError] on line 85, no [ValueError] from the sampling), and each of
    them that has its candidates holds a regular assignment, and a proxy
    from it: endpoints of the pool, drawn without replacement,
    [min 10 (pool size)] of them.  A handler whose sampling does not return
    has a pool of more than 85 endpoints.  What the interleaving can break
    is only that all of them hold the same assignment. *)
Theorem overlapping_handlers_stay_safe
    (d : option string) (n : nat) (st : State) (schedule : list nat) :
  DOMAIN_PROXIES st !! d = None →
  (∀ i e, Threads.threads (Threads.run schedule (Threads.start n d st)) !! i
          ≠ Some (d, Threads.Crashed e))
  ∧ (∀ i l q, Threads.threads (Threads.run schedule (Threads.start n d st)) !! i
              = Some (d, Threads.Observed l q) →
              drawn_from (PROXY_POOL st) l
              ∧ l ⊆ PROXY_POOL st
              ∧ (NoDup (PROXY_POOL st) → NoDup l)
              ∧ match q with None => l = [] | Some x => x ∈ l end)
  ∧ (∀ i, Threads.threads (Threads.run schedule (Threads.start n d st)) !! i
          = Some (d, Threads.Stuck) → 85 < length (PROXY_POOL st))
  ∧ (∀ l, DOMAIN_PROXIES (Threads.shared (Threads.run schedule (Threads.start n d st))) !! d
          = Some l → drawn_from (PROXY_POOL st) l)
  ∧ PROXY_POOL (Threads.shared (Threads.run schedule (Threads.start n d st)))
    = PROXY_POOL st.
Proof.
  intros Hd.
  destruct (run_safe d (PROXY_POOL st) schedule _ (start_safe d _ n st eq_refl Hd))
    as (Hpool & Hentry & Hthreads).
  split_and!; [| | | done | done].
  - intros i e Hi. by apply (Hthreads i _ _ Hi).
  - intros i l q Hi. destruct (Hthreads i _ _ Hi) as [_ [Hl Hq]].
    split; [done|]. destruct Hl as [[rest Hperm] _]. split_and!; [| | done].
    + intros x Hx. rewrite Hperm. apply elem_of_app. by left.
    + intros Hnd. rewrite Hperm in Hnd. by apply NoDup_app in Hnd as (? & _ & _).
  - intros i Hi. by apply (Hthreads i _ _ Hi).
Qed.

Lemma overlapping_handlers_stay_safe_witness :
  let st := mkState (proxy_url <$> seq 0 11) ∅
              [0; 0; 0; 0; 0; 0; 0; 0; 0; 0;  0;  1; 1; 1; 1; 1; 1; 1; 1; 1; 1;  0] [] in
  let d := Some "example.com" in
  let c := Threads.run [0; 1; 0; 0; 0; 1; 1; 1] (Threads.start 2 d st) in
  ∃ l0 p0 l1 p1,
    Threads.threads c
    = [(d, Threads.Observed l0 (Some p0)); (d, Threads.Observed l1 (Some p1))]
    ∧ length l0 = 10 ∧ length l1 = 10
    ∧ l0 ⊆ PROXY_POOL st ∧ l1 ⊆ PROXY_POOL st
    ∧ p0 ∈ l0 ∧ p1 ∈ l1.
Proof.
  cbv zeta.
  destruct (overlapping_handlers_stay_safe (Some "example.com") 2
              (mkState (proxy_url <$> seq 0 11) ∅
                 [0; 0; 0; 0; 0; 0; 0; 0; 0; 0;  0;  1; 1; 1; 1; 1; 1; 1; 1; 1; 1;  0] [])
              [0; 1; 0; 0; 0; 1; 1; 1])
    as (_ & Hobs & _); [reflexivity|].
  eexists _, _, _, _. split; [vm_compute; reflexivity|].
  split; [reflexivity|]. split; [reflexivity|].
  destruct (Hobs 0 _ _ ltac:(vm_compute; reflexivity)) as (_ & Hsub0 & _ & Hin0).
  destruct (Hobs 1 _ _ ltac:(vm_compute; reflexivity)) as (_ & Hsub1 & _ & Hin1).
  by split_and!.
Defined.

(** ** The properties of requests at work *)

Lemma route_failures_witness :
  let request := mkRequest "http://example.com/" (JList [JNum 1]) in
  let st := twelve_proxies [5; 4; 3] in
  (TypeError = NameError "url" ∧ st = st
   ∧ ∃ e0, UrlParse.netloc (url request) = Raise e0)
  ∨ (TypeError = TypeError ∧ st = st
     ∧ ∃ n, UrlParse.netloc (url request) = Ok n ∧ ∀ m, payload_of request ≠ JDict m)
  ∨ (TypeError = AttributeError
     ∧ ∃ n m, UrlParse.netloc (url request) = Ok n
              ∧ payload_of request = JDict m
              ∧ ¬ has_candidates n st
              ∧ DOMAIN_PROXIES st !! Some n = Some []
              ∧ LOG st = LOG st).
Proof.
  cbv zeta.
  apply (route_failures UrlParse.netloc
           (mkRequest "http://example.com/" (JList [JNum 1]))
           (twelve_proxies [5; 4; 3]) TypeError (twelve_proxies [5; 4; 3])).
  reflexivity.
Defined.

Lemma route_sets_fields_witness :
  let body := JDict {[ "session" := JStr "mine"; "proxy" := JStr "http://evil:1" ]} in
  let request := mkRequest "http://example.com/" body in
  let out := route UrlParse.netloc request (twelve_proxies [5; 4; 3; 2; 1; 0; 7; 7; 7; 7; 3]) in
  ∃ req p,
    fst out = Ok req
    ∧ req !! "proxy" = Some (JStr p)
    ∧ req !! "session" = Some (JStr (session_key "example.com" p))
    ∧ p ∈ PROXY_POOL (snd out).
Proof.
  cbv zeta.
  set (request := mkRequest "http://example.com/" _).
  set (st := twelve_proxies _).
  pose (req := match fst (route UrlParse.netloc request st) with
               | Ok r => r
               | _ => ∅
               end).
  assert (route UrlParse.netloc request st
          = (Ok req, snd (route UrlParse.netloc request st))) as Hroute
    by (vm_compute; reflexivity).
  destruct (route_sets_fields UrlParse.netloc request st req _ Hroute)
    as (n & p & l & Hn & Hl & Hin & Hp & Hs & _).
  assert (n = "example.com") as -> by (by injection Hn).
  exists req, p. split_and!; [by rewrite Hroute | done | done |].
  assert (l = ["http://10.0.5.1:8888"; "http://10.0.4.1:8888"; "http://10.0.3.1:8888";
               "http://10.0.2.1:8888"; "http://10.0.1.1:8888"; "http://10.0.0.1:8888";
               "http://10.0.7.1:8888"; "http://10.0.8.1:8888"; "http://10.0.9.1:8888";
               "http://10.0.11.1:8888"]) as ->.
  { apply (inj Some). rewrite <- Hl. vm_compute. reflexivity. }
  revert Hin. generalize p. apply Forall_forall.
  apply (bool_decide_unpack _). vm_compute. exact I.
Defined.

Lemma any_candidate_can_be_selected_witness :
  let st := snd (route UrlParse.netloc get_example
                   (twelve_proxies [5; 4; 3; 2; 1; 0; 7; 7; 7; 7; 3])) in
  ∃ g st',
    route UrlParse.netloc get_example (set_rng g st)
    = (Ok (routed get_example ∅ "example.com" "http://10.0.11.1:8888"), st').
Proof.
  cbv zeta.
  destruct (any_candidate_can_be_selected UrlParse.netloc get_example
              (snd (route UrlParse.netloc get_example
                      (twelve_proxies [5; 4; 3; 2; 1; 0; 7; 7; 7; 7; 3])))
              "example.com" ∅
              ["http://10.0.5.1:8888"; "http://10.0.4.1:8888"; "http://10.0.3.1:8888";
               "http://10.0.2.1:8888"; "http://10.0.1.1:8888"; "http://10.0.0.1:8888";
               "http://10.0.7.1:8888"; "http://10.0.8.1:8888"; "http://10.0.9.1:8888";
               "http://10.0.11.1:8888"]
              "http://10.0.11.1:8888")
    as (g & st' & Hroute & _);
    [reflexivity | reflexivity | vm_compute; reflexivity | |].
  - apply (bool_decide_unpack _). vm_compute. exact I.
  - by exists g, st'.
Defined.

Lemma empty_assignment_is_permanent_witness :
  let st := snd (controller_v1 UrlParse.netloc echo_endpoint get_example (initial_state [])) in
  let ops := [Discover (λ x, x <? 12); Handle (mkRequest "http://other.org/" JNull)] in
  DOMAIN_PROXIES st !! Some "example.com" = Some []
  ∧ PROXY_POOL (run UrlParse.netloc echo_endpoint ops st) ≠ []
  ∧ fst (controller_v1 UrlParse.netloc echo_endpoint get_example
           (run UrlParse.netloc echo_endpoint ops st))
    = Raise AttributeError.
Proof.
  cbv zeta. split; [reflexivity|]. split; [vm_compute; discriminate|].
  rewrite (empty_assignment_is_permanent UrlParse.netloc echo_endpoint
             [Discover (λ x, x <? 12); Handle (mkRequest "http://other.org/" JNull)]
             get_example
             (snd (controller_v1 UrlParse.netloc echo_endpoint get_example (initial_state [])))
             "example.com" ∅);
    reflexivity.
Defined.
